(** * gh_search: a shallow embedding of [github_repo_search.py]

    The development follows the layout of the Python sources:

    - [PyStr]: the few [str] methods the script uses ([strip], [lstrip],
      [startswith], [in]);
    - [QueryBuilder]: [GitHubRepoSearcher._build_ignore_query];
    - [Searcher]: [get_organization_repos], [search_string_in_repo] and
      [search_strings_in_repos], written in a small monad that reads the
      history of the run and emits the events of the call;
    - [Reporter]: the per-string tally of [example_usage.py].

    A Python [str] is a Rocq [string] whose characters are the code points
    0..255. A Python [set] of strings is a [gset string], a [dict] from
    strings is a [gmap string _]. *)

From Stdlib Require Import Ascii String ZArith.
From stdpp Require Import gmap strings list fin_maps sorting.

Open Scope string_scope.
Open Scope list_scope.

(** ** Python string methods *)

Module PyStr.

(** [str.isspace] on one character, for the code points below 256: the
    ASCII controls 9..13 and 28..31, the space, NEL (133) and NBSP (160). *)
Definition isspace (c : ascii) : bool :=
  let n := nat_of_ascii c in
  (((9 <=? n) && (n <=? 13)) || ((28 <=? n) && (n <=? 32))
   || (n =? 133) || (n =? 160))%nat.

(** [c in chars] for a character [c]. *)
Fixpoint mem (c : ascii) (chars : string) : bool :=
  match chars with
  | EmptyString => false
  | String d chars' => if Ascii.eqb c d then true else mem c chars'
  end.

(** Drop the longest prefix whose characters satisfy [p]. *)
Fixpoint drop_while (p : ascii → bool) (s : string) : string :=
  match s with
  | EmptyString => EmptyString
  | String c s' => if p c then drop_while p s' else s
  end.

(** Drop the longest suffix whose characters satisfy [p]. *)
Fixpoint drop_while_end (p : ascii → bool) (s : string) : string :=
  match s with
  | EmptyString => EmptyString
  | String c s' =>
      match drop_while_end p s' with
      | EmptyString => if p c then EmptyString else String c EmptyString
      | r => String c r
      end
  end.

(** [s.strip()]. *)
Definition strip (s : string) : string :=
  drop_while isspace (drop_while_end isspace s).

(** [s.lstrip(chars)]. *)
Definition lstrip (chars s : string) : string :=
  drop_while (λ c, mem c chars) s.

(** [s.startswith(p)]. *)
Definition startswith (s p : string) : bool := String.prefix p s.

(** [not s], the truth value of a string. *)
Definition is_empty (s : string) : bool :=
  match s with EmptyString => true | String _ _ => false end.

(** Every character of [s] satisfies [p]. *)
Fixpoint all_chars (p : ascii → bool) (s : string) : bool :=
  match s with
  | EmptyString => true
  | String c s' => p c && all_chars p s'
  end.

End PyStr.

(** ** Query Builder *)

Module QueryBuilder.
Import PyStr.

(** The body of the [for] loop of [_build_ignore_query], with the string
    under construction as accumulator; [continue] is the recursive call
    on the unchanged accumulator. *)
Fixpoint build_loop (patterns : list string) (ignore_query : string) : string :=
  match patterns with
  | [] => ignore_query
  | pattern :: rest =>
      let pattern := strip pattern in
      if is_empty pattern then build_loop rest ignore_query
      else if startswith pattern "*." || startswith pattern "." then
        let ext := lstrip "*." pattern in
        build_loop rest (ignore_query +:+ " -extension:" +:+ ext)
      else if negb (mem "."%char pattern) && negb (startswith pattern "/") then
        build_loop rest (ignore_query +:+ " -extension:" +:+ pattern)
      else
        build_loop rest (ignore_query +:+ " -path:" +:+ pattern)
  end.

(** [GitHubRepoSearcher._build_ignore_query], as a function of
    [self.ignore_patterns]. *)
Definition _build_ignore_query (ignore_patterns : list string) : string :=
  build_loop ignore_patterns EmptyString.

End QueryBuilder.

(** ** The Query Builder as the specification words it

    These definitions follow section 4.1 of the specification, pattern by
    pattern; they are compared with [QueryBuilder._build_ignore_query]
    below. *)

Module QuerySpec.
Import PyStr.

(** Rule 1: the pattern is empty or consists of whitespace only. *)
Definition skipped (pattern : string) : bool := all_chars isspace pattern.

(** Rules 2 to 4 on a pattern that is not skipped: the clause it
    contributes, leading space included. *)
Definition clause (pattern : string) : string :=
  let p := strip pattern in
  if startswith p "*." || startswith p "." then
    " -extension:" +:+ lstrip "*." p
  else if negb (mem "."%char p) && negb (startswith p "/") then
    " -extension:" +:+ p
  else
    " -path:" +:+ p.

(** The patterns that contribute a clause, in input order. *)
Definition kept (patterns : list string) : list string :=
  filter (λ p, skipped p = false) patterns.

(** The pattern consists of the characters [*] and [.] only. *)
Definition only_star_dot (pattern : string) : bool :=
  all_chars (λ c, mem c "*.") pattern.

End QuerySpec.

(** ** Enumerator, Per-Repository Search and Aggregator *)

Module Searcher.
Import PyStr QueryBuilder.

(** The attributes of a PyGithub repository object the script reads. *)
Record Repository := {
  name : string;
  full_name : string;
  html_url : string
}.

(** How [self.github.search_code(query)] followed by [.totalCount] ends:
    with a count, with a [GithubException] carrying [e.status] and its
    text, or with another [Exception]. *)
Inductive search_response :=
| TotalCount (n : Z)
| SearchGithubException (status : Z) (e : string)
| SearchException (e : string).

(** How [self.github.get_organization(org).get_repos()] ends. *)
Inductive repos_response :=
| Repos (repos : list Repository)
| ReposGithubException (e : string)
| ReposException (e : string).

(** One constructor per [print] of the class, with the interpolated
    values as arguments. *)
Inductive log_line :=
| LogFoundRepos (n : nat) (org : string)
    (* Found {n} repositories in {org} organization *)
| LogOrgError (org e : string)
    (* Error accessing organization {org}: {e} *)
| LogRateLimit (repo_name : string)
    (* Rate limit exceeded or search not available for {repo_name} *)
| LogSearchNotAvailable (repo_name : string)
    (* Search not available for repository {repo_name} *)
| LogSearchError (repo_name e : string)
    (* Error searching in {repo_name}: {e} *)
| LogUnexpectedError (repo_name e : string)
    (* Unexpected error searching in {repo_name}: {e} *)
| LogSearchingRepo (i total : nat) (repo_name : string)
    (* Searching repository {i}/{total}: {repo_name} *)
| LogSearchingFor (search_string : string)
    (*   Searching for: '{search_string}' *)
| LogFound (search_string repo_name : string)
    (*     (check mark) Found '{search_string}' in {repo_name} *)
| LogCompleted (repo_name : string) (n : nat)
    (*   Completed {repo_name} - Found {n} strings *)
| LogSeparator.
    (* fifty dashes *)

(** What a run does to the outside world, in order. *)
Inductive event :=
| Print (line : log_line)
| Sleep (seconds : Z)
| GetRepos (org : string)
| SearchCode (query : string).

(** The remote platform: each answer may depend on everything the run
    has done so far (calls made, time slept), so that rate limits and
    changing repositories are covered. *)
Record Remote := {
  get_repos : list event → string → repos_response;
  search_code : list event → string → search_response
}.

(** A computation reads the history of the run so far and returns a
    value together with the events it emits itself. *)
Definition Run (A : Type) : Type := list event → A * list event.

#[global] Instance Run_ret : MRet Run := λ A a _, (a, []).
#[global] Instance Run_bind : MBind Run := λ A B f m history,
  let '(a, es1) := m history in
  let '(b, es2) := f a (history ++ es1) in
  (b, es1 ++ es2).

Definition emit (e : event) : Run unit := λ _, (tt, [e]).

(** A [for] loop over a list whose body updates one variable. *)
Fixpoint for_each {A S : Type} (body : A → S → Run S) (items : list A)
    (state : S) : Run S :=
  match items with
  | [] => mret state
  | item :: rest => state ← body item state; for_each body rest state
  end.

(** [enumerate(l, start)]. *)
Fixpoint enumerate {A : Type} (start : nat) (l : list A) : list (nat * A) :=
  match l with
  | [] => []
  | x :: l' => (start, x) :: enumerate (S start) l'
  end.

(** A value returned, or an exception leaving the function. *)
Inductive outcome (A : Type) :=
| Returned (a : A)
| Raised (e : string).
Arguments Returned {A} a.
Arguments Raised {A} e.

Definition dquote : string := String "034"%char EmptyString.

Section GitHubRepoSearcher.

(** [self.github] and [self.ignore_patterns], fixed by [__init__]. *)
Variable github : Remote.
Variable ignore_patterns : list string.

Definition org_name : string := "my-org".

Definition call_get_repos (org : string) : Run repos_response :=
  λ history, (get_repos github history org, [GetRepos org]).

Definition call_search_code (query : string) : Run search_response :=
  λ history, (search_code github history query, [SearchCode query]).

(** [get_organization_repos]: only a [GithubException] is caught. *)
Definition get_organization_repos : Run (outcome (list Repository)) :=
  r ← call_get_repos org_name;
  match r with
  | Repos repos =>
      emit (Print (LogFoundRepos (length repos) org_name));;
      mret (Returned repos)
  | ReposGithubException e =>
      emit (Print (LogOrgError org_name e));;
      mret (Returned [])
  | ReposException e => mret (Raised e)
  end.

(** The query string of [search_string_in_repo]. *)
Definition build_query (repo : Repository) (search_string : string) : string :=
  let ignore_query := _build_ignore_query ignore_patterns in
  dquote +:+ search_string +:+ dquote +:+ " repo:" +:+ full_name repo
    +:+ ignore_query.

(** [search_string_in_repo]. *)
Definition search_string_in_repo (repo : Repository) (search_string : string)
    : Run bool :=
  let query := build_query repo search_string in
  search_results ← call_search_code query;
  match search_results with
  | TotalCount totalCount => mret (0 <? totalCount)%Z
  | SearchGithubException status e =>
      if (status =? 403)%Z then
        emit (Print (LogRateLimit (name repo)));;
        emit (Sleep 60);;
        mret false
      else if (status =? 422)%Z then
        emit (Print (LogSearchNotAvailable (name repo)));;
        mret false
      else
        emit (Print (LogSearchError (name repo) e));;
        mret false
  | SearchException e =>
      emit (Print (LogUnexpectedError (name repo) e));;
      mret false
  end.

(** Lines 139 to 146, the body of [for search_string in
    search_strings], as a function of [found_strings]. *)
Definition string_iteration (repo : Repository) (search_string : string)
    (found_strings : gset string) : Run (gset string) :=
  emit (Print (LogSearchingFor search_string));;
  found ← search_string_in_repo repo search_string;
  found_strings ←
    (if found : bool then
       emit (Print (LogFound search_string (name repo)));;
       mret (found_strings ∪ {[search_string]})
     else mret found_strings);
  emit (Sleep 1);;
  mret found_strings.

(** Lines 134 to 152, the body of [for i, repo in enumerate(repos, 1)],
    as a function of [results]; [total] is [len(repos)]. *)
Definition repo_iteration (search_strings : list string) (total : nat)
    (item : nat * Repository) (results : gmap string (gset string))
    : Run (gmap string (gset string)) :=
  let '(i, repo) := item in
  emit (Print (LogSearchingRepo i total (name repo)));;
  found_strings ← for_each (string_iteration repo) search_strings ∅;
  let results :=
    if decide (found_strings = ∅) then results
    else <[html_url repo := found_strings]> results in
  emit (Print (LogCompleted (name repo) (size found_strings)));;
  emit (Print LogSeparator);;
  mret results.

(** [search_strings_in_repos]. *)
Definition search_strings_in_repos (search_strings : list string)
    : Run (outcome (gmap string (gset string))) :=
  r ← get_organization_repos;
  match r with
  | Raised e => mret (Raised e)
  | Returned repos =>
      match repos with
      | [] => mret (Returned ∅)
      | _ :: _ =>
          results ← for_each (repo_iteration search_strings (length repos))
                      (enumerate 1 repos) ∅;
          mret (Returned results)
      end
  end.

End GitHubRepoSearcher.

(** The value of [found_strings] at line 148 in the [k]-th turn
    (counted from 0) of the outer loop over [items], when the loop
    starts after [history]: the inner loop of that turn, run after the
    events of the turns before it. *)
Definition found_in_turn (github : Remote) (ignore_patterns : list string)
    (search_strings : list string) (total : nat)
    (items : list (nat * Repository)) (history : list event) (k : nat)
    : gset string :=
  match items !! k with
  | None => ∅
  | Some (i, repo) =>
      let before :=
        (for_each (repo_iteration github ignore_patterns search_strings total)
           (take k items) ∅ history).2 in
      let start := Print (LogSearchingRepo i total (name repo)) in
      (for_each (string_iteration github ignore_patterns repo)
         search_strings ∅ (history ++ before ++ [start])).1
  end.

(** The same for the [k]-th repository of [repos] in
    [search_strings_in_repos]. *)
Definition found_strings_at (github : Remote) (ignore_patterns : list string)
    (search_strings : list string) (repos : list Repository)
    (history : list event) (k : nat) : gset string :=
  found_in_turn github ignore_patterns search_strings (length repos)
    (enumerate 1 repos) history k.

(** A remote whose state never changes: the same repositories at every
    listing, and a match count that depends on the query only. *)
Definition fixed_remote (repos : list Repository) (count : string → Z)
    : Remote := {|
  get_repos := λ _ _, Repos repos;
  search_code := λ _ query, TotalCount (count query)
|}.

(** The response is an exception. *)
Definition is_error (r : search_response) : bool :=
  match r with TotalCount _ => false | _ => true end.

(** The pauses of a failed search: the cooldown of 60 seconds after
    status 403, none after any other error. *)
Definition cooldown (r : search_response) : list Z :=
  match r with
  | SearchGithubException status _ =>
      if decide (status = 403%Z) then [60%Z] else []
  | _ => []
  end.

(** Projections of a list of events. *)
Definition searches (es : list event) : list string :=
  omap (λ e, match e with SearchCode q => Some q | _ => None end) es.

Definition sleeps (es : list event) : list Z :=
  omap (λ e, match e with Sleep n => Some n | _ => None end) es.

Definition prints (es : list event) : list log_line :=
  omap (λ e, match e with Print l => Some l | _ => None end) es.

End Searcher.

(** ** What the remote reports as a match *)

Module Matches.
Import Searcher.

(** The remote reports a match: it answers with a count above zero. *)
Definition is_match (r : search_response) : bool :=
  match r with
  | TotalCount n => (0 <? n)%Z
  | _ => false
  end.

(** The history at which the search for [s], the [j]-th string (counted
    from 0) of the inner loop for [repo] started after [history],
    reaches the remote: the events of the turns for the strings before
    it, then the line that announces the string. *)
Definition search_history (github : Remote) (ignore_patterns : list string)
    (repo : Repository) (search_strings : list string)
    (history : list event) (j : nat) (s : string) : list event :=
  history
  ++ (for_each (string_iteration github ignore_patterns repo)
        (take j search_strings) ∅ history).2
  ++ [Print (LogSearchingFor s)].

(** [s] matched in [repo]: the remote answered one of the searches for
    [s], in the inner loop for [repo] started after [history], with a
    count above zero. *)
Definition matched_in (github : Remote) (ignore_patterns : list string)
    (repo : Repository) (search_strings : list string)
    (history : list event) (s : string) : Prop :=
  ∃ j, search_strings !! j = Some s
       ∧ is_match
           (search_code github
              (search_history github ignore_patterns repo search_strings
                 history j s)
              (build_query ignore_patterns repo s)) = true.

(** [s] matched in the [k]-th repository (counted from 0) of [repos]
    during the run of [search_strings_in_repos] whose outer loop starts
    after [history]. *)
Definition matched_at (github : Remote) (ignore_patterns : list string)
    (search_strings : list string) (repos : list Repository)
    (history : list event) (k : nat) (s : string) : Prop :=
  match enumerate 1 repos !! k with
  | None => False
  | Some (i, repo) =>
      let total := length repos in
      let before :=
        (for_each (repo_iteration github ignore_patterns search_strings total)
           (take k (enumerate 1 repos)) ∅ history).2 in
      let start := Print (LogSearchingRepo i total (name repo)) in
      matched_in github ignore_patterns repo search_strings
        (history ++ before ++ [start]) s
  end.

End Matches.

(** ** Reporter *)

Module Reporter.

(** The tally of [example_usage.main]: for every entry of [results] and
    every string [str] of its set, [string_counts[str] =
    string_counts.get(str, 0) + 1]. *)
Definition string_counts (results : gmap string (gset string))
    : gmap string nat :=
  map_fold (λ (repo_url : string) (found_strings : gset string) string_counts,
    set_fold (λ (str : string) (string_counts : gmap string nat),
        <[str := default 0 (string_counts !! str) + 1]> string_counts)
      string_counts found_strings)
    ∅ results.

(** The number of repository keys of [results] whose set of matched
    strings contains [str], as the specification words the tally. *)
Definition repos_containing (results : gmap string (gset string))
    (str : string) : nat :=
  size (filter (λ entry : string * gset string, str ∈ entry.2) results).

End Reporter.

(** ** A scenario for the examples *)

Module Scenario.
Import Searcher.

Definition alpha : Repository := {|
  name := "alpha";
  full_name := "my-org/alpha";
  html_url := "https://github.com/my-org/alpha"
|}.

Definition beta : Repository := {|
  name := "beta";
  full_name := "my-org/beta";
  html_url := "https://github.com/my-org/beta"
|}.

(** A remote that lists [alpha] and [beta], finds one match at each of
    the first two searches of a run, answers the third with status 403
    and finds nothing at the later ones. *)
Definition limited_remote : Remote := {|
  get_repos := λ _ _, Repos [alpha; beta];
  search_code := λ history query,
    if decide (length (searches history) = 2) then
      SearchGithubException 403 "rate limit"
    else if decide (length (searches history) < 2)%nat then TotalCount 1
    else TotalCount 0
|}.

End Scenario.

(** ** More projections of a run *)

Module Observe.
Import Searcher.

(** The organizations whose repositories a run lists, in order. *)
Definition listings (es : list event) : list string :=
  omap (λ e, match e with GetRepos org => Some org | _ => None end) es.

(** The seconds a run sleeps in all. *)
Definition total_sleep (es : list event) : Z := foldr Z.add 0%Z (sleeps es).

(** The pacing pauses of a run, the [time.sleep(1)] of line 146. *)
Definition pacing_pauses (es : list event) : list Z :=
  filter (λ seconds, seconds = 1%Z) (sleeps es).

(** The search strings whose query for [repo] has a positive count. *)
Definition hits (count : string → Z) (ignore_patterns : list string)
    (repo : Repository) (search_strings : list string) : gset string :=
  list_to_set
    (filter (λ s, (0 < count (build_query ignore_patterns repo s))%Z)
       search_strings).

(** A run of [k] searches is within its sleeping budget: [k] pacing
    pauses, and between [k] and [61 * k] seconds slept in all. *)
Definition within_budget (es : list event) (k : nat) : Prop :=
  length (pacing_pauses es) = k
  ∧ (Z.of_nat k ≤ total_sleep es ≤ 61 * Z.of_nat k)%Z.

End Observe.

(** ** Totals of a mapping and of a tally *)

Module Totals.

(** The sum of the counts of a tally. *)
Definition total_count (string_counts : gmap string nat) : nat :=
  map_fold (λ (_ : string) (count acc : nat), count + acc) 0 string_counts.

(** The number of matches of a mapping: one per repository and string
    found in it. *)
Definition total_matches (results : gmap string (gset string)) : nat :=
  map_fold (λ (_ : string) (found_strings : gset string) (acc : nat),
              size found_strings + acc) 0 results.

End Totals.

(** ** The Aggregator with its mapping in insertion order *)

Module Ordered.
Import Searcher.

(** A Python [dict] with string keys as the list of its items in
    insertion order, which is the order [items()] yields them in. *)
Definition dict (V : Type) : Type := list (string * V).

(** [d[key] = value]: the value of a key that is present is replaced
    where it stands, a new key goes to the end. *)
Definition dict_set {V : Type} (key : string) (value : V) (d : dict V)
    : dict V :=
  if decide (key ∈ d.*1) then
    (λ item : string * V, if decide (item.1 = key) then (key, value) else item)
      <$> d
  else d ++ [(key, value)].

Section GitHubRepoSearcher.

Variable github : Remote.
Variable ignore_patterns : list string.

(** Lines 134 to 152 again, with [results] as a [dict]. *)
Definition repo_iteration_items (search_strings : list string) (total : nat)
    (item : nat * Repository) (results : dict (gset string))
    : Run (dict (gset string)) :=
  let '(i, repo) := item in
  emit (Print (LogSearchingRepo i total (name repo)));;
  found_strings ←
    for_each (string_iteration github ignore_patterns repo) search_strings ∅;
  let results :=
    if decide (found_strings = ∅) then results
    else dict_set (html_url repo) found_strings results in
  emit (Print (LogCompleted (name repo) (size found_strings)));;
  emit (Print LogSeparator);;
  mret results.

(** [search_strings_in_repos] again, returning the [dict] it builds. *)
Definition search_strings_in_repos_items (search_strings : list string)
    : Run (outcome (dict (gset string))) :=
  r ← get_organization_repos github;
  match r with
  | Raised e => mret (Raised e)
  | Returned repos =>
      match repos with
      | [] => mret (Returned [])
      | _ :: _ =>
          results ←
            for_each (repo_iteration_items search_strings (length repos))
              (enumerate 1 repos) [];
          mret (Returned results)
      end
  end.

End GitHubRepoSearcher.

End Ordered.

(** ** Reporter: [display_results] *)

Module Display.
Import Ordered.

(** One constructor per [print] of [display_results]. *)
Inductive report_line :=
| NoRepositoriesFound
    (* No repositories found containing the specified strings. *)
| RuleAfterBlank
    (* an empty line, then eighty equals signs *)
| Title
    (* SEARCH RESULTS *)
| Rule
    (* eighty equals signs *)
| RepositoryLine (repo_url : string)
    (* an empty line, then: Repository: {repo_url} *)
| FoundStringsLine (strings : list string)
    (* Found strings: {', '.join(strings)} *)
| TotalLine (n : nat).
    (* an empty line, then: Total repositories with matches: {n} *)

(** [sorted(found_strings)]: the strings of the set in ascending order,
    strings being compared character by character by their codes. *)
Definition sorted (found_strings : gset string) : list string :=
  merge_sort String.le (elements found_strings).

(** [display_results], as the lines it prints. *)
Definition display_results (results : dict (gset string)) : list report_line :=
  match results with
  | [] => [NoRepositoriesFound]
  | _ :: _ =>
      [RuleAfterBlank; Title; Rule]
      ++ (results ≫= λ '(repo_url, found_strings),
            [RepositoryLine repo_url; FoundStringsLine (sorted found_strings)])
      ++ [TotalLine (length results)]
  end.

(** The URLs and the lists of strings a report shows, in order. *)
Definition shown_urls (lines : list report_line) : list string :=
  omap (λ l, match l with RepositoryLine u => Some u | _ => None end) lines.

Definition shown_strings (lines : list report_line) : list (list string) :=
  omap (λ l, match l with FoundStringsLine ss => Some ss | _ => None end)
    lines.

Definition shown_totals (lines : list report_line) : list nat :=
  omap (λ l, match l with TotalLine n => Some n | _ => None end) lines.

End Display.

(** ** The command line: [main] of [github_repo_search.py] *)

Module Main.
Import PyStr Searcher Ordered Display.

(** One constructor per [print] of [main]. *)
Inductive main_line :=
| TokenRequired
    (* Error: GitHub token is required. Set GITHUB_TOKEN ... or use --token *)
| TokenHelp
    (* To create a token: https://github.com/settings/tokens *)
| SearchingForStrings (search_strings : list string)
    (* Searching for strings: {search_strings} *)
| OrganizationLine
    (* Organization: my-org *)
| IgnoringPatterns (ignore_patterns : list string)
    (* Ignoring patterns: {ignore_patterns} *)
| Rule50
    (* fifty equals signs *)
| ErrorOccurred (e : string).
    (* An error occurred: {e} *)

(** What the program does, in order: its own lines, the events of the
    search, the lines of the report. *)
Inductive output :=
| Say (line : main_line)
| Searching (e : event)
| Report (line : report_line).

(** The truth value of [None] or of a string. *)
Definition truthy (value : option string) : bool :=
  match value with
  | None => false
  | Some s => negb (is_empty s)
  end.

(** [a or b]. *)
Definition py_or (a b : option string) : option string :=
  if truthy a then a else b.

(** [main] after [parser.parse_args()]: [args_token], [search_strings]
    and [ignore_patterns] are [args.token], [args.strings] and
    [args.ignore], [env_token] is [os.getenv("GITHUB_TOKEN")] and
    [connect token] is the remote behind [Github(token)]. The result is
    the output and the exit status of the process. An interrupt by the
    operator is not an event of the model. *)
Definition main (connect : string → Remote)
    (args_token env_token : option string)
    (search_strings ignore_patterns : list string) : list output * nat :=
  match py_or args_token env_token with
  | None => ([Say TokenRequired; Say TokenHelp], 1)
  | Some token =>
      if is_empty token then ([Say TokenRequired; Say TokenHelp], 1)
      else
        let intro :=
          [Say (SearchingForStrings search_strings); Say OrganizationLine]
          ++ (match ignore_patterns with
              | [] => []
              | _ :: _ => [Say (IgnoringPatterns ignore_patterns)]
              end)
          ++ [Say Rule50] in
        let '(r, es) :=
          search_strings_in_repos_items (connect token) ignore_patterns
            search_strings [] in
        match r with
        | Returned results =>
            (intro ++ (Searching <$> es)
               ++ (Report <$> display_results results), 0)
        | Raised e =>
            (intro ++ (Searching <$> es) ++ [Say (ErrorOccurred e)], 1)
        end
  end.

(** The events of the search in an output. *)
Definition search_events (out : list output) : list event :=
  omap (λ o, match o with Searching e => Some e | _ => None end) out.

Definition report_lines (out : list output) : list report_line :=
  omap (λ o, match o with Report l => Some l | _ => None end) out.

End Main.

(** ** The summary of [example_usage.py] *)

Module Summary.
Import Reporter.

(** The order of Python on pairs of a string and a number: by the
    strings, and by the numbers when the strings are equal. *)
Definition item_le (a b : string * nat) : Prop :=
  (a.1 ≠ b.1 ∧ String.le a.1 b.1) ∨ (a.1 = b.1 ∧ (a.2 ≤ b.2)%nat).

#[global] Instance item_le_dec : RelDecision item_le.
Proof. intros a b. unfold item_le. apply _. Defined.

(** One constructor per [print] of lines 48 to 60 of [main]. *)
Inductive summary_line :=
| SummaryRuleAfterBlank
    (* an empty line, then sixty equals signs *)
| SummaryTitle
    (* SUMMARY BY STRING *)
| SummaryRule
    (* sixty equals signs *)
| CountLine (str : string) (count : nat).
    (* '{str}' found in {count} repositories *)

(** Lines 48 to 60 of [main]: nothing for an empty mapping, otherwise
    the heading and one line per item of
    [sorted(string_counts.items())]. *)
Definition summary (results : gmap string (gset string))
    : list summary_line :=
  if decide (results = ∅) then []
  else
    [SummaryRuleAfterBlank; SummaryTitle; SummaryRule]
    ++ ((λ item : string * nat, CountLine item.1 item.2)
          <$> merge_sort item_le (map_to_list (string_counts results))).

(** The strings and counts a summary shows, in order. *)
Definition counted (lines : list summary_line) : list (string * nat) :=
  omap (λ l, match l with CountLine s n => Some (s, n) | _ => None end)
    lines.

End Summary.

(** ** More scenarios *)

Module MoreScenarios.
Import Searcher Scenario.

(** A remote that refuses to list the organization. *)
Definition forbidden_remote : Remote := {|
  get_repos := λ _ _, ReposGithubException "404 Not Found";
  search_code := λ _ _, TotalCount 1
|}.

(** A remote whose listing fails outside of PyGithub. *)
Definition unreachable_remote : Remote := {|
  get_repos := λ _ _, ReposException "connection refused";
  search_code := λ _ _, TotalCount 1
|}.

(** Counts that find [x] in [alpha] only and [y] everywhere. *)
Definition sample_count (query : string) : Z :=
  if decide (query = build_query ["md"] alpha "x") then 3
  else if decide (query = build_query ["md"] alpha "y") then 1
  else if decide (query = build_query ["md"] beta "y") then 2
  else 0.

End MoreScenarios.

(** * Theorems *)

(** ** Strings *)

Section PyStrFacts.
Import PyStr.

Lemma append_empty_l (s : string) : EmptyString +:+ s = s.
Proof. reflexivity. Qed.

Lemma append_cons (c : ascii) (s t : string) :
  String c s +:+ t = String c (s +:+ t).
Proof. reflexivity. Qed.

Lemma append_empty_r (s : string) : s +:+ EmptyString = s.
Proof.
  induction s as [|c s IH]; [done |]. by rewrite append_cons, IH.
Qed.

Lemma append_assoc (s1 s2 s3 : string) :
  (s1 +:+ s2) +:+ s3 = s1 +:+ (s2 +:+ s3).
Proof.
  induction s1 as [|c s1 IH]; [done |]. by rewrite !append_cons, IH.
Qed.

Lemma is_empty_true (s : string) : is_empty s = true ↔ s = EmptyString.
Proof. destruct s; simpl; split; congruence. Qed.

Lemma drop_while_empty (p : ascii → bool) (s : string) :
  is_empty (drop_while p s) = all_chars p s.
Proof.
  induction s as [|c s IH]; simpl; [done |].
  destruct (p c); simpl; done.
Qed.

Lemma drop_while_end_empty (p : ascii → bool) (s : string) :
  is_empty (drop_while_end p s) = all_chars p s.
Proof.
  induction s as [|c s IH]; simpl; [done |].
  destruct (drop_while_end p s) as [|d r]; simpl in *.
  - rewrite <- IH. by destruct (p c).
  - rewrite <- IH. by rewrite andb_false_r.
Qed.

(** What [drop_while_end] leaves is empty as soon as all of it
    satisfies [p]: its last character does not. *)
Lemma drop_while_end_all (p : ascii → bool) (s : string) :
  all_chars p (drop_while_end p s) = true → drop_while_end p s = EmptyString.
Proof.
  induction s as [|c s IH]; simpl; [done |].
  destruct (drop_while_end p s) as [|d r] eqn:E.
  - destruct (p c) eqn:Hc; simpl; [done |]. by rewrite Hc.
  - intros H. apply andb_prop in H as [_ H]. by specialize (IH H).
Qed.

(** [strip] returns the empty string exactly on the patterns made of
    whitespace only. *)
Lemma strip_empty (s : string) : is_empty (strip s) = all_chars isspace s.
Proof.
  unfold strip. rewrite drop_while_empty.
  destruct (all_chars isspace (drop_while_end isspace s)) eqn:E.
  - apply drop_while_end_all in E.
    rewrite <- drop_while_end_empty, E. done.
  - rewrite <- drop_while_end_empty.
    destruct (drop_while_end isspace s); [done | done].
Qed.

Lemma drop_while_none (p : ascii → bool) (s : string) :
  all_chars (λ c, negb (p c)) s = true → drop_while p s = s.
Proof. destruct s as [|c s]; simpl; [done |]. by destruct (p c). Qed.

Lemma drop_while_end_none (p : ascii → bool) (s : string) :
  all_chars (λ c, negb (p c)) s = true → drop_while_end p s = s.
Proof.
  induction s as [|c s IH]; simpl; [done |].
  intros H. apply andb_prop in H as [Hc Hs]. rewrite (IH Hs).
  destruct s; [|done]. by destruct (p c).
Qed.

Lemma strip_none (s : string) :
  all_chars (λ c, negb (isspace c)) s = true → strip s = s.
Proof.
  intros H. unfold strip. by rewrite drop_while_end_none, drop_while_none.
Qed.

Lemma all_chars_impl (p q : ascii → bool) (s : string) :
  (∀ c, p c = true → q c = true) →
  all_chars p s = true → all_chars q s = true.
Proof.
  intros Hpq. induction s as [|c s IH]; simpl; [done |].
  intros H. apply andb_prop in H as [Hc Hs].
  by rewrite (Hpq _ Hc), (IH Hs).
Qed.

Lemma drop_while_all (p : ascii → bool) (s : string) :
  all_chars p s = true → drop_while p s = EmptyString.
Proof.
  intros H. apply is_empty_true. by rewrite drop_while_empty.
Qed.

End PyStrFacts.

(** ** Query Builder *)

Section QueryBuilderFacts.
Import PyStr QueryBuilder QuerySpec.

(** One turn of the loop appends [clause], or nothing for a skipped
    pattern. *)
Lemma build_loop_cons (pattern : string) (rest : list string) (acc : string) :
  build_loop (pattern :: rest) acc =
  build_loop rest (if skipped pattern then acc else acc +:+ clause pattern).
Proof.
  unfold skipped, clause. simpl. rewrite <- strip_empty.
  destruct (is_empty (strip pattern)); [done |].
  destruct (startswith (strip pattern) "*." || startswith (strip pattern) ".");
    [done |].
  by destruct (negb (mem "." (strip pattern))
               && negb (startswith (strip pattern) "/")).
Qed.

Lemma build_loop_acc (patterns : list string) (acc : string) :
  build_loop patterns acc = acc +:+ build_loop patterns EmptyString.
Proof.
  revert acc. induction patterns as [|p rest IH]; intros acc.
  - simpl. by rewrite append_empty_r.
  - rewrite !build_loop_cons. destruct (skipped p); [apply IH |].
    rewrite (IH (acc +:+ clause p)), (IH (EmptyString +:+ clause p)).
    by rewrite append_empty_l, append_assoc.
Qed.

Lemma build_ignore_query_cons (pattern : string) (rest : list string) :
  _build_ignore_query (pattern :: rest) =
  (if skipped pattern then EmptyString else clause pattern)
    +:+ _build_ignore_query rest.
Proof.
  unfold _build_ignore_query. rewrite build_loop_cons.
  destruct (skipped pattern); [done |]. by rewrite build_loop_acc.
Qed.

Lemma build_ignore_query_app (l1 l2 : list string) :
  _build_ignore_query (l1 ++ l2) =
  _build_ignore_query l1 +:+ _build_ignore_query l2.
Proof.
  induction l1 as [|p l1 IH]; [done |].
  rewrite <- app_comm_cons, !build_ignore_query_cons, IH.
  by rewrite append_assoc.
Qed.

Lemma concat_cons (x : string) (xs : list string) :
  String.concat EmptyString (x :: xs) = x +:+ String.concat EmptyString xs.
Proof. destruct xs; simpl; [by rewrite append_empty_r | done]. Qed.

Lemma star_dot_not_space (c : ascii) :
  mem c "*." = true → negb (isspace c) = true.
Proof.
  simpl. destruct (Ascii.eqb c "*") eqn:E1.
  { apply Ascii.eqb_eq in E1 as ->. done. }
  destruct (Ascii.eqb c ".") eqn:E2; [|done].
  apply Ascii.eqb_eq in E2 as ->. done.
Qed.

Lemma startswith_nonempty (s p : string) :
  startswith s p = true → is_empty p = false → is_empty s = false.
Proof. destruct s, p; simpl; done. Qed.

(** C1, as the code has it. The documented example patterns give: for
    [md] the clause [ -extension:md], for [.circleci] the clause
    [ -extension:circleci], for [*.json] the clause [ -extension:json];
    and for [src/generated], which holds no dot and does not start with
    a slash, the clause [ -extension:src/generated] of rule 3. *)
Theorem build_ignore_query_examples :
  _build_ignore_query ["md"] = " -extension:md"
  ∧ _build_ignore_query [".circleci"] = " -extension:circleci"
  ∧ _build_ignore_query ["src/generated"] = " -extension:src/generated"
  ∧ _build_ignore_query ["*.json"] = " -extension:json".
Proof. repeat split; reflexivity. Qed.

(** C1 as stated fails: [src/generated] does not yield a [-path:]
    clause. *)
Lemma src_generated_is_not_a_path :
  ¬ (_build_ignore_query ["md"] = " -extension:md"
     ∧ _build_ignore_query [".circleci"] = " -extension:circleci"
     ∧ _build_ignore_query ["src/generated"] = " -path:src/generated"
     ∧ _build_ignore_query ["*.json"] = " -extension:json").
Proof. intros (_ & _ & H & _). vm_compute in H. discriminate H. Qed.

(** C4. The output of the Query Builder is the concatenation, in input
    order and without deduplication, of one clause per pattern that is
    not skipped; the skipped patterns are those that are empty after
    trimming, that is the empty and the whitespace-only ones; and every
    clause starts with one space followed by [-extension:] or [-path:]. *)
Theorem build_ignore_query_concat (patterns : list string) :
  _build_ignore_query patterns
    = String.concat EmptyString (clause <$> kept patterns)
  ∧ (∀ p, skipped p = true ↔ strip p = EmptyString)
  ∧ (∀ p, (∃ ext, clause p = " -extension:" +:+ ext)
          ∨ (∃ path, clause p = " -path:" +:+ path)).
Proof.
  split; [|split].
  - induction patterns as [|p rest IH]; [done |].
    rewrite build_ignore_query_cons, IH. unfold kept.
    rewrite filter_cons. destruct (skipped p) eqn:E.
    + rewrite decide_False by done. done.
    + rewrite decide_True by done. by rewrite fmap_cons, concat_cons.
  - intros p. unfold skipped. rewrite <- strip_empty. apply is_empty_true.
  - intros p. unfold clause.
    destruct (startswith (strip p) "*." || startswith (strip p) ".");
      [left; eauto |].
    destruct (negb (mem "." (strip p)) && negb (startswith (strip p) "/"));
      [left | right]; eauto.
Qed.

(** C9, as the code has it. A pattern made of [*] and [.] only that
    starts with [.] or with [*.] is not skipped and contributes the
    clause [ -extension:] with an empty extension name, wherever it
    stands in the list. *)
Theorem star_dot_pattern_empty_extension
    (before after : list string) (pattern : string) :
  only_star_dot pattern = true →
  startswith pattern "*." || startswith pattern "." = true →
  _build_ignore_query (before ++ pattern :: after)
    = _build_ignore_query before +:+ " -extension:"
        +:+ _build_ignore_query after.
Proof.
  intros Hall Hstart. unfold only_star_dot in Hall.
  assert (strip pattern = pattern) as Hstrip.
  { apply strip_none. revert Hall. apply all_chars_impl, star_dot_not_space. }
  assert (skipped pattern = false) as Hskip.
  { unfold skipped. rewrite <- strip_empty, Hstrip.
    apply orb_prop in Hstart as [H|H];
      by apply (startswith_nonempty _ _ H). }
  assert (clause pattern = " -extension:") as Hclause.
  { unfold clause. rewrite Hstrip, Hstart. unfold lstrip.
    by rewrite (drop_while_all _ _ Hall). }
  rewrite build_ignore_query_app, build_ignore_query_cons, Hskip, Hclause.
  done.
Qed.

Lemma star_dot_pattern_empty_extension_witness :
  _build_ignore_query (["md"] ++ "*." :: ["json"])
    = _build_ignore_query ["md"] +:+ " -extension:"
        +:+ _build_ignore_query ["json"].
Proof.
  apply (star_dot_pattern_empty_extension ["md"] ["json"] "*.");
    reflexivity.
Defined.

(** C9 as stated fails: the pattern [*] is made of [*] and [.] only, yet
    its clause is [ -extension:*]. *)
Lemma star_pattern_keeps_its_star :
  ¬ (∀ pattern, pattern ≠ EmptyString → only_star_dot pattern = true →
       _build_ignore_query [pattern] = " -extension:").
Proof.
  intros H. specialize (H "*"). vm_compute in H.
  assert (" -extension:*" = " -extension:") as E by (apply H; done).
  discriminate E.
Qed.

End QueryBuilderFacts.


(** ** The [Run] monad and its loops *)

Section RunFacts.
Import Searcher.

Lemma bind_run {A B : Type} (m : Run A) (f : A → Run B) (h : list event) :
  (m ≫= f) h = ((f (m h).1 (h ++ (m h).2)).1,
                (m h).2 ++ (f (m h).1 (h ++ (m h).2)).2).
Proof.
  unfold mbind, Run_bind. destruct (m h) as [a es1]; simpl.
  by destruct (f a (h ++ es1)).
Qed.

Lemma for_each_cons {A S : Type} (body : A → S → Run S) (x : A)
    (rest : list A) (s : S) (h : list event) :
  for_each body (x :: rest) s h
  = ((for_each body rest (body x s h).1 (h ++ (body x s h).2)).1,
     (body x s h).2
       ++ (for_each body rest (body x s h).1 (h ++ (body x s h).2)).2).
Proof. simpl. apply bind_run. Qed.

Lemma for_each_app {A S : Type} (body : A → S → Run S) (l1 l2 : list A)
    (s : S) (h : list event) :
  for_each body (l1 ++ l2) s h
  = ((for_each body l2 (for_each body l1 s h).1
        (h ++ (for_each body l1 s h).2)).1,
     (for_each body l1 s h).2
       ++ (for_each body l2 (for_each body l1 s h).1
             (h ++ (for_each body l1 s h).2)).2).
Proof.
  revert s h. induction l1 as [|x l1 IH]; intros s h.
  - simpl. rewrite app_nil_r. by destruct (for_each body l2 s h).
  - rewrite <- app_comm_cons, !for_each_cons, IH. simpl.
    by rewrite <- ?app_assoc.
Qed.

(** An invariant of the loop variable that every turn preserves holds
    when the loop ends. *)
Lemma for_each_invariant {A S : Type} (body : A → S → Run S)
    (P : S → Prop) (items : list A) :
  (∀ x s h, x ∈ items → P s → P (body x s h).1) →
  ∀ s h, P s → P (for_each body items s h).1.
Proof.
  induction items as [|x rest IH]; intros Hbody s h Hs; [done |].
  rewrite for_each_cons. simpl. apply IH.
  - intros y s' h' Hy. apply Hbody. by right.
  - apply Hbody; [by left | done].
Qed.

Lemma searches_app (es1 es2 : list event) :
  searches (es1 ++ es2) = searches es1 ++ searches es2.
Proof. apply omap_app. Qed.

End RunFacts.

(** ** Per-Repository Search *)

Section SearchFacts.
Import Searcher.
Context (github : Remote) (ignore_patterns : list string).

(** The events and the result of one search, by the response of the
    remote. *)
Lemma search_string_in_repo_run (repo : Repository) (s : string)
    (h : list event) :
  search_string_in_repo github ignore_patterns repo s h
  = let query := build_query ignore_patterns repo s in
    match search_code github h query with
    | TotalCount n => ((0 <? n)%Z, [SearchCode query])
    | SearchGithubException status e =>
        if decide (status = 403%Z) then
          (false,
           [SearchCode query; Print (LogRateLimit (name repo)); Sleep 60])
        else if decide (status = 422%Z) then
          (false, [SearchCode query; Print (LogSearchNotAvailable (name repo))])
        else
          (false, [SearchCode query; Print (LogSearchError (name repo) e)])
    | SearchException e =>
        (false, [SearchCode query; Print (LogUnexpectedError (name repo) e)])
    end.
Proof.
  unfold search_string_in_repo. rewrite bind_run.
  unfold call_search_code. simpl.
  destruct (search_code github h _) as [n|status e|e]; [done | | done].
  destruct (Z.eqb_spec status 403) as [->|H1]; [done |].
  rewrite (decide_False (P := status = 403%Z)) by done.
  destruct (Z.eqb_spec status 422) as [->|H2]; [done |].
  by rewrite (decide_False (P := status = 422%Z)) by done.
Qed.

Lemma string_iteration_run (repo : Repository) (s : string)
    (found : gset string) (h : list event) :
  string_iteration github ignore_patterns repo s found h
  = let r := search_string_in_repo github ignore_patterns repo s
               (h ++ [Print (LogSearchingFor s)]) in
    (if r.1 then found ∪ {[s]} else found,
     Print (LogSearchingFor s) :: r.2
       ++ (if r.1 then [Print (LogFound s (name repo))] else [])
       ++ [Sleep 1]).
Proof.
  unfold string_iteration. rewrite bind_run. simpl.
  rewrite bind_run. simpl.
  by destruct (search_string_in_repo _ _ _ _ _) as [[|] es].
Qed.

(** Whatever the remote answers, one search sends one query. *)
Lemma search_string_in_repo_searches (repo : Repository) (s : string)
    (h : list event) :
  searches (search_string_in_repo github ignore_patterns repo s h).2
  = [build_query ignore_patterns repo s].
Proof.
  rewrite search_string_in_repo_run. simpl.
  destruct (search_code github h _) as [n|status e|e]; [done | | done].
  by repeat case_decide.
Qed.

Lemma string_iteration_searches (repo : Repository) (s : string)
    (found : gset string) (h : list event) :
  searches (string_iteration github ignore_patterns repo s found h).2
  = [build_query ignore_patterns repo s].
Proof.
  rewrite string_iteration_run. simpl.
  rewrite searches_app, search_string_in_repo_searches.
  by destruct (search_string_in_repo _ _ _ _ _).1.
Qed.

(** The inner loop sends one query per search string, in order,
    whatever the remote answers. *)
Lemma strings_loop_searches (repo : Repository) (strs : list string)
    (found : gset string) (h : list event) :
  searches (for_each (string_iteration github ignore_patterns repo)
              strs found h).2
  = build_query ignore_patterns repo <$> strs.
Proof.
  revert found h. induction strs as [|s strs IH]; intros found h; [done |].
  rewrite for_each_cons. simpl.
  by rewrite searches_app, string_iteration_searches, IH.
Qed.

(** C5. The query sent for a repository and a search string is the
    string between double quotes, a space, [repo:] and the full name of
    the repository, then the exclusion clause of the Query Builder; the
    search string is copied as it is, embedded quotes included. *)
Theorem search_query_sent (repo : Repository) (search_string : string)
    (history : list event) :
  searches
    (search_string_in_repo github ignore_patterns repo search_string history).2
  = [dquote +:+ search_string +:+ dquote +:+ " repo:" +:+ full_name repo
       +:+ QueryBuilder._build_ignore_query ignore_patterns].
Proof. apply search_string_in_repo_searches. Qed.

(** C2. When the remote search raises, the search returns [False]
    instead of propagating, after one query (no retry) and one log line;
    it sleeps the cooldown of 60 seconds after status 403 and does not
    sleep after status 422 or any other error. *)
Theorem search_error_is_not_found (repo : Repository)
    (search_string : string) (history : list event) :
  let query := build_query ignore_patterns repo search_string in
  let r := search_string_in_repo github ignore_patterns repo search_string
             history in
  is_error (search_code github history query) = true →
  r.1 = false
  ∧ searches r.2 = [query]
  ∧ sleeps r.2 = cooldown (search_code github history query)
  ∧ length (prints r.2) = 1.
Proof.
  intros query r Herr. subst r. rewrite search_string_in_repo_run.
  fold query. simpl.
  destruct (search_code github history query) as [n|status e|e];
    [done | | done].
  simpl. by repeat case_decide.
Qed.

(** C6. If the search for a string of the list hits a rate limit, that
    turn leaves [found_strings] as it was, sleeps the cooldown, and the
    loop goes on: the queries for all the strings after it are sent. *)
Theorem rate_limit_does_not_stop_the_loop (repo : Repository)
    (before after : list string) (search_string : string)
    (found_strings : gset string) (history : list event) (e : string) :
  let loop := for_each (string_iteration github ignore_patterns repo) in
  let query := build_query ignore_patterns repo search_string in
  let r1 := loop before found_strings history in
  let turn := [Print (LogSearchingFor search_string); SearchCode query;
               Print (LogRateLimit (name repo)); Sleep 60; Sleep 1] in
  let r2 := loop after r1.1 (history ++ r1.2 ++ turn) in
  search_code github
    (history ++ r1.2 ++ [Print (LogSearchingFor search_string)]) query
    = SearchGithubException 403 e →
  loop (before ++ search_string :: after) found_strings history
    = (r2.1, r1.2 ++ turn ++ r2.2)
  ∧ searches r2.2 = build_query ignore_patterns repo <$> after
  ∧ searches (loop (before ++ search_string :: after) found_strings history).2
    = build_query ignore_patterns repo <$> (before ++ search_string :: after).
Proof.
  intros loop query r1 turn r2 H403. split; [|split].
  - subst loop query r1 turn r2. cbv zeta in *.
    rewrite for_each_app, for_each_cons, string_iteration_run.
    rewrite search_string_in_repo_run. cbv zeta.
    rewrite <- !(app_assoc history), H403. simpl.
    by rewrite <- ?app_assoc.
  - apply strings_loop_searches.
  - apply strings_loop_searches.
Qed.

End SearchFacts.

(** ** Enumerator and Aggregator *)

Section AggregatorFacts.
Import Searcher.
Context (github : Remote) (ignore_patterns : list string).
Context (search_strings : list string).

Lemma get_organization_repos_run (h : list event) :
  get_organization_repos github h
  = match get_repos github h org_name with
    | Repos repos =>
        (Returned repos,
         [GetRepos org_name; Print (LogFoundRepos (length repos) org_name)])
    | ReposGithubException e =>
        (Returned [], [GetRepos org_name; Print (LogOrgError org_name e)])
    | ReposException e => (Raised e, [GetRepos org_name])
    end.
Proof.
  unfold get_organization_repos. rewrite bind_run. unfold call_get_repos.
  simpl. by destruct (get_repos github h org_name).
Qed.

Lemma repo_iteration_run (total i : nat) (repo : Repository)
    (results : gmap string (gset string)) (h : list event) :
  repo_iteration github ignore_patterns search_strings total (i, repo)
    results h
  = let r := for_each (string_iteration github ignore_patterns repo)
               search_strings ∅
               (h ++ [Print (LogSearchingRepo i total (name repo))]) in
    (if decide (r.1 = ∅) then results else <[html_url repo := r.1]> results,
     Print (LogSearchingRepo i total (name repo)) :: r.2
       ++ [Print (LogCompleted (name repo) (size r.1)); Print LogSeparator]).
Proof.
  unfold repo_iteration. rewrite bind_run. simpl. rewrite bind_run. simpl.
  by destruct (for_each _ _ _ _).
Qed.

(** The events of a turn, and so of the loop, do not depend on the
    mapping built so far. *)
Lemma repos_loop_events (total : nat) (items : list (nat * Repository))
    (results results' : gmap string (gset string)) (h : list event) :
  (for_each (repo_iteration github ignore_patterns search_strings total)
     items results h).2
  = (for_each (repo_iteration github ignore_patterns search_strings total)
       items results' h).2.
Proof.
  revert results results' h.
  induction items as [|[i repo] items IH]; intros results results' h; [done |].
  rewrite !for_each_cons, !repo_iteration_run. simpl. do 2 f_equal.
  apply IH.
Qed.

(** When the Enumerator returns, so does the Aggregator, with the
    mapping the outer loop builds from the empty one. *)
Lemma search_strings_in_repos_run (h : list event)
    (repos : list Repository) (es0 : list event) :
  get_organization_repos github h = (Returned repos, es0) →
  search_strings_in_repos github ignore_patterns search_strings h
  = let loop :=
      for_each (repo_iteration github ignore_patterns search_strings
                  (length repos))
        (enumerate 1 repos) ∅ (h ++ es0) in
    (Returned loop.1, es0 ++ loop.2).
Proof.
  intros Henum. unfold search_strings_in_repos. rewrite bind_run, Henum.
  simpl. destruct repos as [|repo repos]; [done |].
  rewrite bind_run. simpl. by rewrite app_nil_r.
Qed.

Lemma search_strings_in_repos_returned (h : list event)
    (m : gmap string (gset string)) (es : list event) :
  search_strings_in_repos github ignore_patterns search_strings h
    = (Returned m, es) →
  ∃ repos es0,
    get_organization_repos github h = (Returned repos, es0)
    ∧ m = (for_each (repo_iteration github ignore_patterns search_strings
                       (length repos))
             (enumerate 1 repos) ∅ (h ++ es0)).1.
Proof.
  intros Hrun.
  destruct (get_organization_repos github h) as [[repos|e] es0] eqn:Henum.
  - rewrite (search_strings_in_repos_run _ _ _ Henum) in Hrun.
    exists repos, es0. split; [done |]. congruence.
  - unfold search_strings_in_repos in Hrun. rewrite bind_run, Henum in Hrun.
    simpl in Hrun. congruence.
Qed.

(** The inner loop only ever adds search strings of the list. *)
Lemma strings_loop_subset (repo : Repository) (found : gset string)
    (h : list event) :
  (∀ s, s ∈ found → s ∈ search_strings) →
  ∀ s,
    s ∈ (for_each (string_iteration github ignore_patterns repo)
           search_strings found h).1 →
    s ∈ search_strings.
Proof.
  revert found h.
  apply (for_each_invariant _
    (λ found : gset string, ∀ s, s ∈ found → s ∈ search_strings)).
  intros x found h Hx Hfound s. rewrite string_iteration_run. simpl.
  destruct (search_string_in_repo _ _ _ _ _).1; [|by auto].
  rewrite elem_of_union, elem_of_singleton. intros [?| ->]; auto.
Qed.

Lemma repos_loop_subset (total : nat) (items : list (nat * Repository))
    (results : gmap string (gset string)) (h : list event) :
  (∀ u found s,
     results !! u = Some found → s ∈ found → s ∈ search_strings) →
  ∀ u found s,
    (for_each (repo_iteration github ignore_patterns search_strings total)
       items results h).1 !! u = Some found →
    s ∈ found → s ∈ search_strings.
Proof.
  revert results h.
  apply (for_each_invariant _
    (λ results : gmap string (gset string), ∀ u found s,
       results !! u = Some found → s ∈ found → s ∈ search_strings)).
  intros [i repo] results h _ Hres u found s.
  rewrite repo_iteration_run. simpl. case_decide; [by apply Hres |].
  rewrite lookup_insert. case_decide; [|by apply Hres].
  intros [= <-]. apply strings_loop_subset. set_solver.
Qed.

Lemma repos_loop_nonempty (total : nat) (items : list (nat * Repository))
    (results : gmap string (gset string)) (h : list event) :
  (∀ u found, results !! u = Some found → found ≠ ∅) →
  ∀ u found,
    (for_each (repo_iteration github ignore_patterns search_strings total)
       items results h).1 !! u = Some found →
    found ≠ ∅.
Proof.
  revert results h.
  apply (for_each_invariant _
    (λ results : gmap string (gset string), ∀ u found,
       results !! u = Some found → found ≠ ∅)).
  intros [i repo] results h _ Hres u found.
  rewrite repo_iteration_run. simpl. case_decide; [by apply Hres |].
  rewrite lookup_insert. case_decide; [|by apply Hres].
  by intros [= <-].
Qed.

Lemma found_in_turn_0 (total i : nat) (repo : Repository)
    (items : list (nat * Repository)) (h : list event) :
  found_in_turn github ignore_patterns search_strings total
    ((i, repo) :: items) h 0
  = (for_each (string_iteration github ignore_patterns repo) search_strings ∅
       (h ++ [Print (LogSearchingRepo i total (name repo))])).1.
Proof. done. Qed.

Lemma found_in_turn_S (total : nat) (x : nat * Repository)
    (items : list (nat * Repository)) (h : list event) (k : nat)
    (results : gmap string (gset string)) :
  found_in_turn github ignore_patterns search_strings total (x :: items) h
    (S k)
  = found_in_turn github ignore_patterns search_strings total items
      (h ++ (repo_iteration github ignore_patterns search_strings total
               x results h).2) k.
Proof.
  unfold found_in_turn.
  change ((x :: items) !! S k) with (items !! k).
  destruct (items !! k) as [[i repo]|]; [|done].
  change (take (S k) (x :: items)) with (x :: take k items).
  rewrite for_each_cons. destruct x as [j repo'].
  rewrite !repo_iteration_run. simpl.
  rewrite (repos_loop_events total (take k items) _ ∅).
  do 2 f_equal. rewrite <- !app_assoc. simpl. by rewrite <- !app_assoc.
Qed.

(** The keys of the mapping after the outer loop: those it had, and the
    URLs of the repositories whose turn ended with a non-empty
    [found_strings]. *)
Lemma repos_loop_dom (total : nat) (items : list (nat * Repository))
    (results : gmap string (gset string)) (h : list event) (u : string) :
  u ∈ dom (for_each
             (repo_iteration github ignore_patterns search_strings total)
             items results h).1
  ↔ u ∈ dom results
    ∨ ∃ k i repo, items !! k = Some (i, repo) ∧ html_url repo = u
        ∧ found_in_turn github ignore_patterns search_strings total items h k
          ≠ ∅.
Proof.
  revert results h. induction items as [|[i repo] items IH]; intros results h.
  { simpl. split; [by left |]. intros [H|(k & j & r & H & _)]; [done |].
    by rewrite lookup_nil in H. }
  rewrite for_each_cons.
  pose proof (found_in_turn_0 total i repo items h) as H0.
  pose proof (λ k, found_in_turn_S total (i, repo) items h k results) as HS.
  rewrite repo_iteration_run in *. simpl in *. rewrite IH. clear IH.
  set (F := (for_each (string_iteration github ignore_patterns repo)
               search_strings ∅
               (h ++ [Print (LogSearchingRepo i total (name repo))])).1) in *.
  assert (u ∈ dom (if decide (F = ∅) then results
                   else <[html_url repo := F]> results)
          ↔ u ∈ dom results ∨ (html_url repo = u ∧ F ≠ ∅)) as ->.
  { case_decide as HF.
    - split; [by left | by intros [?|[_ ?]]].
    - rewrite dom_insert_L, elem_of_union, elem_of_singleton.
      split; [intros [->|?]; [by right | by left] |].
      intros [?|[<- _]]; [by right | by left]. }
  split.
  - intros [[Hdom|[Hu HF]]|(k & j & r & Hk & Hu & Hne)].
    + by left.
    + right. exists 0, i, repo. by rewrite H0.
    + right. exists (S k), j, r. by rewrite HS.
  - intros [Hdom|(k & j & r & Hk & Hu & Hne)]; [by left; left |].
    destruct k as [|k].
    + simpl in Hk. injection Hk as <- <-. rewrite H0 in Hne.
      left. by right.
    + right. exists k, j, r. by rewrite <- HS.
Qed.

Lemma lookup_enumerate {A : Type} (start : nat) (l : list A) (k i : nat)
    (x : A) :
  enumerate start l !! k = Some (i, x) ↔ i = start + k ∧ l !! k = Some x.
Proof.
  revert start k. induction l as [|y l IH]; intros start k; simpl.
  { rewrite !lookup_nil. by split; [|intros [_ ?]]. }
  destruct k as [|k]; simpl.
  - rewrite Nat.add_0_r. split; [by intros [= <- <-] | by intros [-> [= ->]]].
  - by rewrite IH, Nat.add_succ_r.
Qed.

(** The events of a turn of the inner loop, and so of the loop, do not
    depend on the strings found so far. *)
Lemma string_iteration_events (repo : Repository) (s : string)
    (found found' : gset string) (h : list event) :
  (string_iteration github ignore_patterns repo s found h).2
  = (string_iteration github ignore_patterns repo s found' h).2.
Proof. by rewrite !string_iteration_run. Qed.

Lemma strings_loop_events (repo : Repository) (strs : list string)
    (found found' : gset string) (h : list event) :
  (for_each (string_iteration github ignore_patterns repo) strs found h).2
  = (for_each (string_iteration github ignore_patterns repo) strs found' h).2.
Proof.
  revert found found' h.
  induction strs as [|s strs IH]; intros found found' h; [done |].
  rewrite !for_each_cons. cbn [snd].
  rewrite (string_iteration_events repo s found found').
  f_equal. apply IH.
Qed.

(** A search returns what the remote reports. *)
Lemma search_string_in_repo_is_match (repo : Repository) (s : string)
    (h : list event) :
  (search_string_in_repo github ignore_patterns repo s h).1
  = Matches.is_match
      (search_code github h (build_query ignore_patterns repo s)).
Proof.
  rewrite search_string_in_repo_run. cbv zeta.
  destruct (search_code github h _) as [n|status e|e]; [done | | done].
  simpl. by repeat case_decide.
Qed.

Lemma matched_in_cons (repo : Repository) (s0 : string)
    (strs : list string) (h : list event) (s : string) :
  Matches.matched_in github ignore_patterns repo (s0 :: strs) h s
  ↔ (s = s0
     ∧ Matches.is_match
         (search_code github (h ++ [Print (LogSearchingFor s0)])
            (build_query ignore_patterns repo s0)) = true)
    ∨ Matches.matched_in github ignore_patterns repo strs
        (h ++ (string_iteration github ignore_patterns repo s0 ∅ h).2) s.
Proof.
  assert (∀ j,
    Matches.search_history github ignore_patterns repo (s0 :: strs) h (S j) s
    = Matches.search_history github ignore_patterns repo strs
        (h ++ (string_iteration github ignore_patterns repo s0 ∅ h).2) j s)
    as Hshift.
  { intros j. unfold Matches.search_history.
    change (take (S j) (s0 :: strs)) with (s0 :: take j strs).
    rewrite for_each_cons. cbn [snd].
    rewrite (strings_loop_events repo (take j strs) _ ∅).
    by rewrite <- !app_assoc. }
  unfold Matches.matched_in. split.
  - intros [[|j] [Hj Hm]].
    + left. injection Hj as <-. split; [done |]. exact Hm.
    + right. exists j. split; [exact Hj |]. by rewrite <- Hshift.
  - intros [[-> Hm]|[j [Hj Hm]]].
    + exists 0. split; [done |]. exact Hm.
    + exists (S j). split; [exact Hj |]. by rewrite Hshift.
Qed.

(** The inner loop finds the strings that matched, and no other. *)
Lemma strings_loop_matched (repo : Repository) (strs : list string)
    (found : gset string) (h : list event) (s : string) :
  s ∈ (for_each (string_iteration github ignore_patterns repo)
         strs found h).1
  ↔ s ∈ found ∨ Matches.matched_in github ignore_patterns repo strs h s.
Proof.
  revert found h. induction strs as [|s0 strs IH]; intros found h.
  { simpl. split; [by left |]. intros [?|[j [Hj _]]]; [done |].
    by rewrite lookup_nil in Hj. }
  rewrite for_each_cons. cbn [fst]. rewrite IH, matched_in_cons.
  rewrite (string_iteration_events repo s0 found ∅).
  rewrite string_iteration_run at 1. cbn [fst]. cbv zeta.
  rewrite search_string_in_repo_is_match.
  destruct (Matches.is_match _) eqn:Hm.
  - rewrite elem_of_union, elem_of_singleton. split.
    + intros [[?| ->]|?]; [by left | by right; left | by right; right].
    + intros [?|[[-> _]|?]]; [by left; left | by left; right | by right].
  - split.
    + intros [?|?]; [by left | by right; right].
    + intros [?|[[_ ?]|?]]; [by left | done | by right].
Qed.

Lemma found_strings_at_matched (repos : list Repository) (h : list event)
    (k : nat) (s : string) :
  s ∈ found_strings_at github ignore_patterns search_strings repos h k
  ↔ Matches.matched_at github ignore_patterns search_strings repos h k s.
Proof.
  unfold found_strings_at, found_in_turn, Matches.matched_at.
  destruct (enumerate 1 repos !! k) as [[i repo]|]; [|by split].
  cbv zeta. rewrite strings_loop_matched. split; [|by right].
  by intros [?|?].
Qed.

(** C3. When the Enumerator returns [repos], the Aggregator returns a
    mapping in which no key is bound to the empty set, and whose keys are
    the URLs of the repositories whose set of matched strings is not
    empty; repositories being told apart by their URLs, the URL of a
    repository is a key if and only if its own set is not empty. The set
    of matched strings of a repository holds the search strings for
    which the remote answered a search in that repository with a count
    above zero, and no other. *)
Theorem result_key_iff_matched (history : list event)
    (repos : list Repository) (es0 : list event) :
  get_organization_repos github history = (Returned repos, es0) →
  let matched :=
    found_strings_at github ignore_patterns search_strings repos
      (history ++ es0) in
  ∃ m es,
    search_strings_in_repos github ignore_patterns search_strings history
      = (Returned m, es)
    ∧ (∀ u found, m !! u = Some found → found ≠ ∅)
    ∧ (∀ u, u ∈ dom m
         ↔ ∃ k repo, repos !! k = Some repo ∧ html_url repo = u
             ∧ matched k ≠ ∅)
    ∧ (NoDup (html_url <$> repos) →
       ∀ k repo, repos !! k = Some repo →
         (html_url repo ∈ dom m ↔ matched k ≠ ∅))
    ∧ (∀ k s, s ∈ matched k
         ↔ Matches.matched_at github ignore_patterns search_strings repos
             (history ++ es0) k s)
    ∧ (NoDup (html_url <$> repos) →
       ∀ k repo, repos !! k = Some repo →
         (html_url repo ∈ dom m
          ↔ ∃ s, Matches.matched_at github ignore_patterns search_strings
                   repos (history ++ es0) k s)).
Proof.
  intros Henum matched.
  rewrite (search_strings_in_repos_run _ _ _ Henum).
  eexists _, _. split; [reflexivity |].
  assert (∀ u,
    u ∈ dom (for_each (repo_iteration github ignore_patterns search_strings
                         (length repos))
               (enumerate 1 repos) ∅ (history ++ es0)).1
    ↔ ∃ k repo, repos !! k = Some repo ∧ html_url repo = u
        ∧ matched k ≠ ∅) as Hkeys.
  { intros u. rewrite repos_loop_dom, dom_empty_L. split.
    - intros [H|(k & i & repo & Hk & Hu & Hne)];
        [by apply elem_of_empty in H |].
      apply lookup_enumerate in Hk as [_ Hk]. by exists k, repo.
    - intros (k & repo & Hk & Hu & Hne). right.
      exists k, (1 + k), repo. split; [|done].
      by apply lookup_enumerate. }
  assert (NoDup (html_url <$> repos) →
          ∀ k repo, repos !! k = Some repo →
            (html_url repo
               ∈ dom (for_each (repo_iteration github ignore_patterns
                                  search_strings (length repos))
                        (enumerate 1 repos) ∅ (history ++ es0)).1
             ↔ matched k ≠ ∅)) as Hrepo.
  { intros Hnodup k repo Hk. rewrite Hkeys. split.
    + intros (k' & repo' & Hk' & Hu & Hne).
      assert (k' = k) as <-; [|done].
      apply (NoDup_lookup _ _ _ (html_url repo) Hnodup).
      * by rewrite list_lookup_fmap, Hk', <- Hu.
      * by rewrite list_lookup_fmap, Hk.
    + intros Hne. by exists k, repo. }
  split; [|split; [|split; [|split]]].
  - apply repos_loop_nonempty. intros u found H.
    by rewrite lookup_empty in H.
  - exact Hkeys.
  - exact Hrepo.
  - intros k s. apply found_strings_at_matched.
  - intros Hnodup k repo Hk. rewrite (Hrepo Hnodup k repo Hk). split.
    + intros Hne. apply set_choose_L in Hne as [s Hs].
      exists s. by apply found_strings_at_matched.
    + intros [s Hs]. apply found_strings_at_matched in Hs.
      intros Hempty. unfold matched in Hempty. rewrite Hempty in Hs.
      by apply elem_of_empty in Hs.
Qed.

(** C10. Every set of the mapping the Aggregator returns is a subset of
    the search strings it was called with. *)
Theorem results_within_search_strings (history : list event)
    (m : gmap string (gset string)) (es : list event) :
  search_strings_in_repos github ignore_patterns search_strings history
    = (Returned m, es) →
  ∀ u found, m !! u = Some found → found ⊆ list_to_set search_strings.
Proof.
  intros Hrun u found Hu s Hs. apply elem_of_list_to_set.
  apply search_strings_in_repos_returned in Hrun
    as (repos & es0 & _ & ->).
  revert u found s Hu Hs. apply repos_loop_subset.
  intros u found s H. by rewrite lookup_empty in H.
Qed.

(** A remote whose answers do not depend on the history gives runs that
    do not depend on it either. *)
Lemma bind_history_free {A B : Type} (m : Run A) (f : A → Run B) :
  (∀ h h', m h = m h') → (∀ a h h', f a h = f a h') →
  ∀ h h', (m ≫= f) h = (m ≫= f) h'.
Proof.
  intros Hm Hf h h'. rewrite !bind_run, (Hm h h').
  by rewrite (Hf _ (h ++ (m h').2) (h' ++ (m h').2)).
Qed.

Lemma for_each_history_free {A S : Type} (body : A → S → Run S) :
  (∀ x s h h', body x s h = body x s h') →
  ∀ items s h h', for_each body items s h = for_each body items s h'.
Proof.
  intros Hbody items. induction items as [|x items IH]; intros s h h'.
  - done.
  - simpl. apply bind_history_free; [apply Hbody | intros a; apply IH].
Qed.

Lemma search_strings_in_repos_history_free :
  (∀ h h' org, get_repos github h org = get_repos github h' org) →
  (∀ h h' query, search_code github h query = search_code github h' query) →
  ∀ h h',
    search_strings_in_repos github ignore_patterns search_strings h
    = search_strings_in_repos github ignore_patterns search_strings h'.
Proof.
  intros Hrepos Hsearch.
  assert (∀ repo s h h',
    search_string_in_repo github ignore_patterns repo s h
    = search_string_in_repo github ignore_patterns repo s h') as H1.
  { intros. rewrite !search_string_in_repo_run. cbv zeta.
    by rewrite (Hsearch h h'). }
  assert (∀ repo s found h h',
    string_iteration github ignore_patterns repo s found h
    = string_iteration github ignore_patterns repo s found h') as H2.
  { intros. rewrite !string_iteration_run. cbv zeta.
    by rewrite (H1 repo s (h ++ [Print (LogSearchingFor s)])
                  (h' ++ [Print (LogSearchingFor s)])). }
  assert (∀ total item results h h',
    repo_iteration github ignore_patterns search_strings total item results h
    = repo_iteration github ignore_patterns search_strings total item results
        h') as H3.
  { intros total [i repo] results h h'. rewrite !repo_iteration_run. cbv zeta.
    by rewrite (for_each_history_free _ (H2 repo) search_strings ∅
                  (h ++ [Print (LogSearchingRepo i total (name repo))])
                  (h' ++ [Print (LogSearchingRepo i total (name repo))])). }
  assert (∀ h h', get_organization_repos github h
                  = get_organization_repos github h') as H4.
  { intros. rewrite !get_organization_repos_run. by rewrite (Hrepos h h'). }
  unfold search_strings_in_repos. apply bind_history_free; [done |].
  intros [[|repo repos]|e] h h'; [done | | done].
  apply bind_history_free; [|done].
  apply for_each_history_free, H3.
Qed.

End AggregatorFacts.

(** C8. Against a remote whose state does not change, a fixed list of
    repositories and a fixed function from queries to match counts, a
    second run of the whole search, started after the first, returns the
    same mapping as the first. *)
Theorem search_twice_same_mapping (repos : list Searcher.Repository)
    (count : string → Z) (ignore_patterns search_strings : list string)
    (history : list Searcher.event) :
  let github := Searcher.fixed_remote repos count in
  let run1 :=
    Searcher.search_strings_in_repos github ignore_patterns search_strings
      history in
  let run2 :=
    Searcher.search_strings_in_repos github ignore_patterns search_strings
      (history ++ run1.2) in
  ∃ m, run1.1 = Searcher.Returned m ∧ run2.1 = Searcher.Returned m.
Proof.
  intros github run1 run2.
  assert (run2 = run1) as ->.
  { by apply search_strings_in_repos_history_free. }
  subst run1.
  erewrite (search_strings_in_repos_run github); [by eexists |].
  by rewrite get_organization_repos_run.
Qed.

(** ** Reporter *)

Section ReporterFacts.
Import Reporter.

(** The inner loop of the tally adds one to the count of every string
    of the set and leaves the other counts alone. *)
Lemma tally_set_lookup (found : gset string) (counts : gmap string nat)
    (s : string) :
  set_fold (λ (str : string) (c : gmap string nat),
              <[str := default 0 (c !! str) + 1]> c) counts found !! s
  = if decide (s ∈ found) then Some (default 0 (counts !! s) + 1)
    else counts !! s.
Proof.
  revert found s.
  apply (set_fold_ind_L
    (λ (r : gmap string nat) (X : gset string), ∀ s,
       r !! s = if decide (s ∈ X) then Some (default 0 (counts !! s) + 1)
                else counts !! s)).
  - intros s. by rewrite decide_False by set_solver.
  - intros x X r Hx IH s. destruct (decide (s = x)) as [->|Hne].
    + rewrite lookup_insert_eq, decide_True by set_solver.
      by rewrite IH, decide_False by done.
    + rewrite lookup_insert_ne by done. rewrite IH.
      destruct (decide (s ∈ X)).
      * by rewrite decide_True by set_solver.
      * rewrite decide_False; [done |].
        rewrite elem_of_union, elem_of_singleton. by intros [?|?].
Qed.

Lemma repos_containing_empty (s : string) : repos_containing ∅ s = 0.
Proof. unfold repos_containing. by rewrite map_filter_empty. Qed.

Lemma repos_containing_insert (results : gmap string (gset string))
    (url : string) (found : gset string) (s : string) :
  results !! url = None →
  repos_containing (<[url := found]> results) s
  = if decide (s ∈ found) then S (repos_containing results s)
    else repos_containing results s.
Proof.
  intros Hfresh. unfold repos_containing. rewrite map_filter_insert. simpl.
  destruct (decide (s ∈ found)).
  - rewrite map_size_insert_None; [done |].
    by apply map_lookup_filter_None_2; left.
  - by rewrite delete_id.
Qed.

(** C7. The tally binds every string to the number of repository keys
    whose set contains it, and has no entry for a string that no set
    contains; for the mapping of the specification, [repoA] with [x] and
    [repoB] with [x] and [y], it is [x] with 2 and [y] with 1. *)
Theorem string_counts_tally (results : gmap string (gset string)) :
  (∀ s, string_counts results !! s
        = if decide (repos_containing results s = 0) then None
          else Some (repos_containing results s))
  ∧ string_counts (<["repoA" := {["x"]}]> (<["repoB" := {["x"; "y"]}]> ∅))
    = <["x" := 2]> (<["y" := 1]> ∅).
Proof.
  split; [|by vm_compute].
  revert results. unfold string_counts.
  apply (map_fold_weak_ind
    (λ (counts : gmap string nat) (m : gmap string (gset string)), ∀ s,
       counts !! s = if decide (repos_containing m s = 0) then None
                     else Some (repos_containing m s))).
  - intros s. by rewrite repos_containing_empty, lookup_empty.
  - intros url found m counts Hfresh IH s.
    rewrite tally_set_lookup, (repos_containing_insert _ _ _ _ Hfresh), IH.
    destruct (decide (s ∈ found)); [|done].
    destruct (decide (S (repos_containing m s) = 0)) as [?|_]; [done |].
    destruct (decide (repos_containing m s = 0)) as [->|_]; simpl; [done |].
    by rewrite Nat.add_1_r.
Qed.

End ReporterFacts.

(** ** The theorems on a concrete run *)

Section Witnesses.
Import Searcher Scenario.

Lemma search_error_is_not_found_witness :
  let r := search_string_in_repo limited_remote ["md"] alpha "z"
             [SearchCode "q1"; SearchCode "q2"] in
  r.1 = false ∧ sleeps r.2 = [60%Z].
Proof.
  pose proof (search_error_is_not_found limited_remote ["md"] alpha "z"
                [SearchCode "q1"; SearchCode "q2"] eq_refl)
    as (Hfalse & _ & Hsleep & _).
  split; [exact Hfalse | exact Hsleep].
Defined.

(** The scenario of the specification: the third of five searches is
    rate limited, the fourth and the fifth are still sent. *)
Lemma rate_limit_does_not_stop_the_loop_witness :
  searches (for_each (string_iteration limited_remote [] alpha)
              ["s1"; "s2"; "s3"; "s4"; "s5"] ∅ []).2
  = build_query [] alpha <$> ["s1"; "s2"; "s3"; "s4"; "s5"].
Proof.
  exact (proj2 (proj2
    (rate_limit_does_not_stop_the_loop limited_remote [] alpha
       ["s1"; "s2"] ["s4"; "s5"] "s3" ∅ [] "rate limit" eq_refl))).
Defined.

Lemma result_key_iff_matched_witness :
  ∃ m es,
    search_strings_in_repos limited_remote ["md"] ["x"; "y"; "z"] []
      = (Returned m, es)
    ∧ (html_url beta ∈ dom m
       ↔ found_strings_at limited_remote ["md"] ["x"; "y"; "z"] [alpha; beta]
           [GetRepos org_name; Print (LogFoundRepos 2 org_name)] 1 ≠ ∅)
    ∧ (html_url alpha ∈ dom m
       ↔ ∃ s, Matches.matched_at limited_remote ["md"] ["x"; "y"; "z"]
                [alpha; beta]
                [GetRepos org_name; Print (LogFoundRepos 2 org_name)] 0 s).
Proof.
  destruct (result_key_iff_matched limited_remote ["md"] ["x"; "y"; "z"] []
              [alpha; beta]
              [GetRepos org_name; Print (LogFoundRepos 2 org_name)] eq_refl)
    as (m & es & Hrun & _ & _ & Hiff & _ & Hmatch).
  exists m, es. split; [exact Hrun |].
  assert (NoDup (html_url <$> [alpha; beta])) as Hnodup.
  { apply (bool_decide_unpack _). vm_compute. exact I. }
  split.
  - exact (Hiff Hnodup 1 beta eq_refl).
  - exact (Hmatch Hnodup 0 alpha eq_refl).
Defined.

Lemma results_within_search_strings_witness :
  ({["x"; "y"]} : gset string) ⊆ list_to_set ["x"; "y"; "z"].
Proof.
  assert (search_strings_in_repos limited_remote ["md"] ["x"; "y"; "z"] []
          = (Returned (<[html_url alpha := {["x"; "y"]}]> ∅),
             (search_strings_in_repos limited_remote ["md"] ["x"; "y"; "z"]
                []).2)) as Hrun.
  { vm_compute. reflexivity. }
  apply (results_within_search_strings _ _ _ _ _ _ Hrun (html_url alpha)).
  vm_compute. reflexivity.
Defined.

End Witnesses.

(** * Further properties *)

#[local] Set Warnings "-clear-no-such-hyp".

(** ** Query Builder: trimming, empty output, extensions *)

Section QueryBuilderMore.
Import PyStr QueryBuilder QuerySpec.

Lemma drop_while_idem (p : ascii → bool) (s : string) :
  drop_while p (drop_while p s) = drop_while p s.
Proof.
  induction s as [|c s IH]; [done |]. simpl.
  destruct (p c) eqn:Hc; [done |]. simpl. by rewrite Hc.
Qed.

Lemma drop_while_end_idem (p : ascii → bool) (s : string) :
  drop_while_end p (drop_while_end p s) = drop_while_end p s.
Proof.
  induction s as [|c s IH]; [done |]. simpl.
  destruct (drop_while_end p s) as [|d r] eqn:E.
  - destruct (p c) eqn:Hc; [done |]. simpl. by rewrite Hc.
  - simpl in *. by rewrite IH.
Qed.

(** Dropping a prefix keeps a string that [drop_while_end] leaves
    alone one that [drop_while_end] leaves alone. *)
Lemma drop_while_end_drop_while (p : ascii → bool) (s : string) :
  drop_while_end p s = s →
  drop_while_end p (drop_while p s) = drop_while p s.
Proof.
  induction s as [|c s IH]; [done |]. intros H.
  change (drop_while p (String c s))
    with (if p c then drop_while p s else String c s).
  destruct (p c) eqn:Hc; [|done].
  apply IH. simpl in H. rewrite Hc in H.
  destruct (drop_while_end p s) as [|d r]; [done |]. by injection H.
Qed.

Lemma strip_idem (s : string) : strip (strip s) = strip s.
Proof.
  unfold strip.
  rewrite (drop_while_end_drop_while isspace (drop_while_end isspace s)).
  - apply drop_while_idem.
  - apply drop_while_end_idem.
Qed.

Lemma append_eq_empty (s t : string) :
  s +:+ t = EmptyString ↔ s = EmptyString ∧ t = EmptyString.
Proof.
  destruct s as [|c s]; [by rewrite append_empty_l; split; [|intros []] |].
  rewrite append_cons. by split; [|intros []].
Qed.

Lemma clause_nonempty (p : string) : clause p ≠ EmptyString.
Proof.
  unfold clause.
  destruct (startswith (strip p) "*." || startswith (strip p) "."); [done |].
  by destruct (negb (mem "." (strip p)) && negb (startswith (strip p) "/")).
Qed.

(** What [drop_while] removes satisfies [p], and what it leaves does not
    start with a character that does. *)
Lemma drop_while_split (p : ascii → bool) (s : string) :
  ∃ lead, s = lead +:+ drop_while p s ∧ all_chars p lead = true.
Proof.
  induction s as [|c s (lead & Hs & Hlead)]; [by exists EmptyString |].
  simpl. destruct (p c) eqn:Hc.
  - exists (String c lead). rewrite append_cons, <- Hs. simpl.
    by rewrite Hc, Hlead.
  - by exists EmptyString.
Qed.

Lemma drop_while_head (p : ascii → bool) (s : string) (c : ascii)
    (rest : string) :
  drop_while p s = String c rest → p c = false.
Proof.
  induction s as [|d s IH]; [done |]. simpl.
  destruct (p d) eqn:Hd; [done |]. by intros [= <- _].
Qed.

(** X1. The exclusion clause is empty exactly when every pattern is
    empty after [strip()]; in particular for no pattern at all. *)
Theorem build_ignore_query_empty_iff (patterns : list string) :
  _build_ignore_query patterns = EmptyString
  ↔ Forall (λ p, strip p = EmptyString) patterns.
Proof.
  induction patterns as [|p rest IH]; [by split; [constructor |] |].
  rewrite build_ignore_query_cons, append_eq_empty, IH, Forall_cons.
  assert (skipped p = true ↔ strip p = EmptyString) as Hskip.
  { unfold skipped. rewrite <- strip_empty. apply is_empty_true. }
  destruct (skipped p) eqn:E.
  - split; [intros [_ ?] | intros [_ ?]]; split; try done. by apply Hskip.
  - split.
    + intros [H _]. by apply clause_nonempty in H.
    + intros [H _]. apply Hskip in H. done.
Qed.

(** X2. Whitespace around the patterns does not matter: trimming every
    pattern beforehand gives the same exclusion clause. *)
Theorem build_ignore_query_strip (patterns : list string) :
  _build_ignore_query (strip <$> patterns) = _build_ignore_query patterns.
Proof.
  induction patterns as [|p rest IH]; [done |].
  rewrite fmap_cons, !build_ignore_query_cons, IH.
  unfold skipped, clause. by rewrite <- !strip_empty, !strip_idem.
Qed.

(** X3. For a pattern that starts, once trimmed, with [.] or [*.], the
    extension that is excluded is the pattern without its leading run of
    [*] and [.] characters: it never starts with [*] or [.] itself. *)
Theorem extension_has_no_leading_star_dot (pattern : string) :
  startswith (strip pattern) "*." || startswith (strip pattern) "." = true →
  ∃ lead ext,
    strip pattern = lead +:+ ext
    ∧ only_star_dot lead = true
    ∧ startswith ext "*" = false ∧ startswith ext "." = false
    ∧ _build_ignore_query [pattern] = " -extension:" +:+ ext.
Proof.
  intros Hstart.
  destruct (drop_while_split (λ c, mem c "*.") (strip pattern))
    as (lead & Hsplit & Hlead).
  exists lead, (lstrip "*." (strip pattern)). unfold lstrip.
  split; [done |]. split; [done |].
  assert (skipped pattern = false) as Hskip.
  { unfold skipped. rewrite <- strip_empty.
    apply orb_prop in Hstart as [H|H];
      by apply (startswith_nonempty _ _ H). }
  pose proof (drop_while_head (λ c, mem c "*.") (strip pattern)) as Hhead.
  destruct (drop_while _ (strip pattern)) as [|c rest] eqn:E.
  - repeat split; try done.
    rewrite build_ignore_query_cons, Hskip. unfold clause, lstrip.
    by rewrite Hstart, E.
  - specialize (Hhead c rest eq_refl).
    assert (∀ d, mem d "*." = true →
              startswith (String c rest) (String d EmptyString) = false)
      as Hnot.
    { intros d Hd. apply not_true_is_false. intros Hp.
      unfold startswith in Hp. apply prefix_correct in Hp. simpl in Hp.
      injection Hp as -> _. congruence. }
    repeat split.
    + by apply Hnot.
    + by apply Hnot.
    + rewrite build_ignore_query_cons, Hskip. unfold clause, lstrip.
      by rewrite Hstart, E, append_empty_r.
Qed.

Lemma extension_has_no_leading_star_dot_witness :
  ∃ lead ext,
    strip " *.tar.gz " = lead +:+ ext
    ∧ only_star_dot lead = true
    ∧ startswith ext "*" = false ∧ startswith ext "." = false
    ∧ _build_ignore_query [" *.tar.gz "] = " -extension:" +:+ ext.
Proof.
  apply (extension_has_no_leading_star_dot " *.tar.gz "). reflexivity.
Defined.

(** X4. The exclusion clause of two lists of patterns put end to end is
    the clause of the first followed by the clause of the second. *)
Theorem build_ignore_query_of_app (patterns1 patterns2 : list string) :
  _build_ignore_query (patterns1 ++ patterns2)
  = _build_ignore_query patterns1 +:+ _build_ignore_query patterns2.
Proof. apply build_ignore_query_app. Qed.

End QueryBuilderMore.

(** ** Per-Repository Search and Enumerator: what they do and never do *)

Section SearchMore.
Import Searcher Observe.
Context (github : Remote) (ignore_patterns : list string).

Lemma search_string_in_repo_sleeps (repo : Repository) (s : string)
    (h : list event) :
  sleeps (search_string_in_repo github ignore_patterns repo s h).2
  = cooldown (search_code github h (build_query ignore_patterns repo s)).
Proof.
  rewrite search_string_in_repo_run. simpl.
  destruct (search_code github h _) as [n|status e|e]; [done | | done].
  simpl. by repeat case_decide.
Qed.

(** X5. A search reports a string as found exactly when the remote
    answered its query with a positive count: no error, and no count of
    zero or below, is ever taken for a match. *)
Theorem search_found_iff_positive_count (repo : Repository)
    (search_string : string) (history : list event) :
  (search_string_in_repo github ignore_patterns repo search_string history).1
    = true
  ↔ ∃ n, search_code github history
           (build_query ignore_patterns repo search_string) = TotalCount n
         ∧ (0 < n)%Z.
Proof.
  rewrite search_string_in_repo_run. simpl.
  destruct (search_code github history _) as [n|status e|e]; simpl.
  - rewrite Z.ltb_lt. split; [by exists n | by intros (? & [= <-] & ?)].
  - split; [|by intros (? & ? & ?)]. by repeat case_decide.
  - split; [done | by intros (? & ? & ?)].
Qed.

(** X6. A search pauses only after status 403: it sleeps, and then 60
    seconds, exactly when the remote raised a [GithubException] with
    that status; a successful search never sleeps and never logs. *)
Theorem search_sleeps_iff_status_403 (repo : Repository)
    (search_string : string) (history : list event) :
  let response :=
    search_code github history
      (build_query ignore_patterns repo search_string) in
  let es :=
    (search_string_in_repo github ignore_patterns repo search_string
       history).2 in
  (sleeps es = [60%Z] ↔ ∃ e, response = SearchGithubException 403 e)
  ∧ (sleeps es = [] ↔ ¬ ∃ e, response = SearchGithubException 403 e)
  ∧ (is_error response = false → prints es = []).
Proof.
  intros response es. subst es.
  rewrite search_string_in_repo_sleeps. fold response.
  split; [|split].
  - destruct response as [n|status e|e]; simpl;
      [by split; [|intros []] | | by split; [|intros []]].
    case_decide as H; [subst; by split; [exists e |] |].
    split; [done |]. intros [? [= ? _]]. done.
  - destruct response as [n|status e|e]; simpl;
      [by split; [intros _ [] |] | | by split; [intros _ [] |]].
    case_decide as H; [subst |].
    + split; [done |]. intros Hno. destruct Hno. by exists e.
    + split; [|done]. intros _ [? [= ? _]]. done.
  - rewrite search_string_in_repo_run. cbv zeta. fold response.
    by destruct response.
Qed.

(** X7. The Enumerator lists the organization [my-org] once and does
    nothing else to the remote: no search, no sleep. A [GithubException]
    is turned into the empty list with one log line, another exception
    leaves the function, and a listing is returned as it is. *)
Theorem get_organization_repos_behaviour (history : list event) :
  let r := get_organization_repos github history in
  listings r.2 = ["my-org"] ∧ searches r.2 = [] ∧ sleeps r.2 = []
  ∧ match get_repos github history "my-org" with
    | Repos repos => r.1 = Returned repos
    | ReposGithubException e =>
        r.1 = Returned [] ∧ prints r.2 = [LogOrgError "my-org" e]
    | ReposException e => r.1 = Raised e ∧ prints r.2 = []
    end.
Proof.
  intros r. subst r. rewrite get_organization_repos_run.
  change org_name with "my-org".
  by destruct (get_repos github history "my-org").
Qed.

End SearchMore.

(** ** Aggregator: queries, pauses, values *)

Section AggregatorMore.
Import Searcher Observe.
Context (github : Remote) (ignore_patterns : list string).
Context (search_strings : list string).

Lemma length_enumerate {A : Type} (start : nat) (l : list A) :
  length (enumerate start l) = length l.
Proof.
  revert start. induction l as [|x l IH]; intros start; simpl; [done |].
  by rewrite IH.
Qed.

Lemma sleeps_app (es1 es2 : list event) :
  sleeps (es1 ++ es2) = sleeps es1 ++ sleeps es2.
Proof. apply omap_app. Qed.

Lemma enumerate_snd {A : Type} (start : nat) (l : list A) :
  (enumerate start l).*2 = l.
Proof.
  revert start. induction l as [|x l IH]; intros start; simpl; [done |].
  by rewrite IH.
Qed.

Lemma within_budget_nil : within_budget [] 0.
Proof. by split. Qed.

Lemma within_budget_app (es1 es2 : list event) (k1 k2 : nat) :
  within_budget es1 k1 → within_budget es2 k2 →
  within_budget (es1 ++ es2) (k1 + k2).
Proof.
  unfold within_budget, pacing_pauses, total_sleep.
  intros [H1 B1] [H2 B2]. rewrite sleeps_app, filter_app, length_app.
  split; [by rewrite H1, H2 |].
  rewrite foldr_app.
  assert (∀ zs a, foldr Z.add a zs = (foldr Z.add 0 zs + a)%Z) as Hfold.
  { induction zs as [|z zs IH]; intros a; simpl; [lia |]. rewrite IH. lia. }
  rewrite Hfold. lia.
Qed.

Lemma string_iteration_budget (repo : Repository) (s : string)
    (found : gset string) (h : list event) :
  within_budget (string_iteration github ignore_patterns repo s found h).2 1.
Proof.
  rewrite string_iteration_run. simpl.
  unfold within_budget, pacing_pauses, total_sleep. simpl.
  rewrite sleeps_app, search_string_in_repo_sleeps.
  destruct (search_code github _ _) as [n|status e|e]; simpl.
  - by destruct (search_string_in_repo _ _ _ _ _).1.
  - case_decide; by destruct (search_string_in_repo _ _ _ _ _).1.
  - by destruct (search_string_in_repo _ _ _ _ _).1.
Qed.

Lemma strings_loop_budget (repo : Repository) (strs : list string)
    (found : gset string) (h : list event) :
  within_budget
    (for_each (string_iteration github ignore_patterns repo) strs found h).2
    (length strs).
Proof.
  revert found h. induction strs as [|s strs IH]; intros found h.
  - apply within_budget_nil.
  - rewrite for_each_cons. cbn [snd length].
    apply (within_budget_app _ _ 1 (length strs));
      [apply string_iteration_budget | apply IH].
Qed.

Lemma repo_iteration_budget (total : nat) (item : nat * Repository)
    (results : gmap string (gset string)) (h : list event) :
  within_budget
    (repo_iteration github ignore_patterns search_strings total item
       results h).2
    (length search_strings).
Proof.
  destruct item as [i repo]. rewrite repo_iteration_run. cbn [snd].
  cbv zeta.
  pose proof (strings_loop_budget repo search_strings ∅
    (h ++ [Print (LogSearchingRepo i total (name repo))])) as [H1 H2].
  unfold within_budget, pacing_pauses, total_sleep in *. simpl.
  rewrite sleeps_app. simpl. by rewrite app_nil_r.
Qed.

Lemma repos_loop_budget (total : nat) (items : list (nat * Repository))
    (results : gmap string (gset string)) (h : list event) :
  within_budget
    (for_each (repo_iteration github ignore_patterns search_strings total)
       items results h).2
    (length items * length search_strings).
Proof.
  revert results h. induction items as [|item items IH]; intros results h.
  - apply within_budget_nil.
  - rewrite for_each_cons. cbn [snd length]. simpl Nat.mul.
    apply within_budget_app; [apply repo_iteration_budget | apply IH].
Qed.

Lemma repos_loop_searches (total : nat) (items : list (nat * Repository))
    (results : gmap string (gset string)) (h : list event) :
  searches
    (for_each (repo_iteration github ignore_patterns search_strings total)
       items results h).2
  = items.*2 ≫= λ repo, build_query ignore_patterns repo <$> search_strings.
Proof.
  revert results h.
  induction items as [|[i repo] items IH]; intros results h; [done |].
  rewrite for_each_cons, repo_iteration_run. cbn [snd fst]. cbv zeta.
  rewrite searches_app, IH.
  change (searches (Print ?l :: ?es)) with (searches es).
  rewrite searches_app, strings_loop_searches. simpl. by rewrite app_nil_r.
Qed.

(** X8. When the organization has no repository, or cannot be listed
    because of a [GithubException], the Aggregator returns the empty
    mapping without a single search or pause. *)
Theorem no_repositories_no_search (history : list event) :
  (get_repos github history org_name = Repos []
   ∨ ∃ e, get_repos github history org_name = ReposGithubException e) →
  let r :=
    search_strings_in_repos github ignore_patterns search_strings history in
  r.1 = Returned ∅ ∧ searches r.2 = [] ∧ sleeps r.2 = [].
Proof.
  intros Hlist r. subst r.
  assert (∃ es0, get_organization_repos github history = (Returned [], es0)
                 ∧ searches es0 = [] ∧ sleeps es0 = [])
    as (es0 & Henum & Hs & Hp).
  { rewrite get_organization_repos_run.
    destruct Hlist as [-> | [e ->]]; by eexists. }
  rewrite (search_strings_in_repos_run _ _ _ _ _ _ Henum). simpl.
  by rewrite app_nil_r.
Qed.

(** X9. An exception of the listing that is not a [GithubException]
    leaves the Aggregator as it is, before any search. *)
Theorem listing_exception_propagates (history : list event) (e : string) :
  get_repos github history org_name = ReposException e →
  search_strings_in_repos github ignore_patterns search_strings history
  = (Raised e, [GetRepos org_name]).
Proof.
  intros Hlist. unfold search_strings_in_repos.
  rewrite bind_run, get_organization_repos_run, Hlist. done.
Qed.

(** X10. When the Enumerator returns [repos], the Aggregator sends one
    query per repository and search string, and no other: repository by
    repository in listing order, and for each the search strings in
    their order, whatever the remote answers. *)
Theorem queries_of_a_run (history : list event) (repos : list Repository)
    (es0 : list event) :
  get_organization_repos github history = (Returned repos, es0) →
  searches
    (search_strings_in_repos github ignore_patterns search_strings history).2
  = repos ≫= λ repo, build_query ignore_patterns repo <$> search_strings.
Proof.
  intros Henum.
  rewrite (search_strings_in_repos_run _ _ _ _ _ _ Henum). cbv zeta.
  cbn [snd]. rewrite searches_app, repos_loop_searches, enumerate_snd.
  assert (searches es0 = []) as ->; [|done].
  rewrite get_organization_repos_run in Henum.
  destruct (get_repos github history org_name); by injection Henum as _ <-.
Qed.

(** X11. When the Enumerator returns [repos], the run makes one pacing
    pause of a second per search, and sleeps in all between one and 61
    seconds per search. *)
Theorem sleeping_budget_of_a_run (history : list event)
    (repos : list Repository) (es0 : list event) :
  get_organization_repos github history = (Returned repos, es0) →
  within_budget
    (search_strings_in_repos github ignore_patterns search_strings history).2
    (length repos * length search_strings).
Proof.
  intros Henum.
  rewrite (search_strings_in_repos_run _ _ _ _ _ _ Henum). cbv zeta.
  cbn [snd].
  assert (within_budget es0 0) as H0.
  { rewrite get_organization_repos_run in Henum.
    destruct (get_repos github history org_name);
      by injection Henum as _ <-. }
  pose proof (repos_loop_budget (length repos) (enumerate 1 repos) ∅
                (history ++ es0)) as Hloop.
  rewrite length_enumerate in Hloop.
  apply (within_budget_app _ _ 0 _ H0 Hloop).
Qed.

End AggregatorMore.

Section AggregatorValues.
Import Searcher Observe.
Context (github : Remote) (ignore_patterns : list string).
Context (search_strings : list string).

(** The loop leaves alone the keys that are no URL of its items. *)
Lemma repos_loop_lookup_other (total : nat) (items : list (nat * Repository))
    (results : gmap string (gset string)) (h : list event) (u : string) :
  u ∉ html_url <$> items.*2 →
  (for_each (repo_iteration github ignore_patterns search_strings total)
     items results h).1 !! u = results !! u.
Proof.
  revert results h.
  induction items as [|[i repo] items IH]; intros results h Hu; [done |].
  rewrite for_each_cons, repo_iteration_run. cbn [fst snd]. cbv zeta.
  rewrite !fmap_cons, not_elem_of_cons in Hu. destruct Hu as [Hne Hu].
  rewrite (IH _ _ Hu). case_decide; [done |].
  by rewrite lookup_insert_ne.
Qed.

(** With distinct URLs, the value of a key after the loop is the
    [found_strings] of the turn of its repository, if not empty. *)
Lemma repos_loop_lookup (total : nat) (items : list (nat * Repository))
    (results : gmap string (gset string)) (h : list event) (k i : nat)
    (repo : Repository) :
  NoDup (html_url <$> items.*2) →
  items !! k = Some (i, repo) →
  (for_each (repo_iteration github ignore_patterns search_strings total)
     items results h).1 !! html_url repo
  = if decide (found_in_turn github ignore_patterns search_strings total
                 items h k = ∅)
    then results !! html_url repo
    else Some (found_in_turn github ignore_patterns search_strings total
                 items h k).
Proof.
  revert results h k.
  induction items as [|[j r0] items IH]; intros results h k Hnodup Hk;
    [by rewrite lookup_nil in Hk |].
  rewrite !fmap_cons in Hnodup. cbn [snd] in Hnodup.
  apply NoDup_cons in Hnodup as [Hfresh Hnodup].
  destruct k as [|k].
  - injection Hk as -> ->. rewrite found_in_turn_0.
    rewrite for_each_cons, repo_iteration_run. cbn [fst snd]. cbv zeta.
    rewrite (repos_loop_lookup_other _ _ _ _ _ Hfresh).
    case_decide; [done |]. by rewrite lookup_insert_eq.
  - change (((j, r0) :: items) !! S k) with (items !! k) in Hk.
    rewrite (found_in_turn_S _ _ _ total (j, r0) items h k results).
    rewrite for_each_cons. cbn [fst]. rewrite (IH _ _ k Hnodup Hk).
    case_decide; [|done].
    rewrite repo_iteration_run. cbn [fst]. cbv zeta.
    case_decide; [done |]. rewrite lookup_insert_ne; [done |].
    intros Heq. apply Hfresh. cbn [snd]. rewrite Heq.
    apply list_elem_of_fmap. exists repo. split; [done |].
    apply list_elem_of_fmap. exists (i, repo). split; [done |].
    by apply list_elem_of_lookup_2 with k.
Qed.

(** X12. With distinct URLs, what the mapping binds to the URL of a
    repository is the set of strings found in the turn of that
    repository, and nothing when that set is empty: reading a key gives
    back what the run inserted for it. *)
Theorem result_value_is_found_strings (history : list event)
    (repos : list Repository) (es0 : list event) (k : nat)
    (repo : Repository) :
  get_organization_repos github history = (Returned repos, es0) →
  NoDup (html_url <$> repos) →
  repos !! k = Some repo →
  let found :=
    found_strings_at github ignore_patterns search_strings repos
      (history ++ es0) k in
  ∃ m es,
    search_strings_in_repos github ignore_patterns search_strings history
      = (Returned m, es)
    ∧ m !! html_url repo = if decide (found = ∅) then None else Some found.
Proof.
  intros Henum Hnodup Hk found.
  rewrite (search_strings_in_repos_run _ _ _ _ _ _ Henum). cbv zeta.
  eexists _, _. split; [reflexivity |].
  rewrite (repos_loop_lookup _ _ _ _ k (1 + k) repo).
  - fold (found_strings_at github ignore_patterns search_strings repos
            (history ++ es0) k). fold found.
    case_decide; [by rewrite lookup_empty | done].
  - by rewrite enumerate_snd.
  - by apply lookup_enumerate.
Qed.

End AggregatorValues.

(** ** Aggregator against a remote that does not change *)

Section FixedRemote.
Import Searcher Observe.
Context (repos : list Repository) (count : string → Z).
Context (ignore_patterns search_strings : list string).

(** Against a fixed remote the inner loop adds the hits of the
    repository, whatever happened before. *)
Lemma strings_loop_fixed (repo : Repository) (strs : list string)
    (found : gset string) (h : list event) :
  (for_each (string_iteration (fixed_remote repos count) ignore_patterns repo)
     strs found h).1
  = found ∪ hits count ignore_patterns repo strs.
Proof.
  revert found h. induction strs as [|s strs IH]; intros found h.
  { unfold hits. simpl. set_solver. }
  rewrite for_each_cons, IH, string_iteration_run. cbn [fst]. cbv zeta.
  rewrite search_string_in_repo_run. cbv zeta. cbn [search_code fixed_remote].
  cbn [fst]. unfold hits. rewrite filter_cons.
  destruct (Z.ltb_spec 0 (count (build_query ignore_patterns repo s))).
  - rewrite decide_True by done. rewrite list_to_set_cons. set_solver.
  - rewrite decide_False by lia. set_solver.
Qed.

Lemma found_in_turn_fixed (total : nat) (items : list (nat * Repository))
    (h : list event) (k i : nat) (repo : Repository) :
  items !! k = Some (i, repo) →
  found_in_turn (fixed_remote repos count) ignore_patterns search_strings
    total items h k
  = hits count ignore_patterns repo search_strings.
Proof.
  intros Hk. unfold found_in_turn. rewrite Hk, strings_loop_fixed.
  set_solver.
Qed.

(** X13. Against a remote that does not change, and with distinct URLs,
    the mapping is exact: a search string is in the set bound to the URL
    of a listed repository if and only if it is one of the search
    strings and its query for that repository has a positive count. *)
Theorem fixed_remote_mapping_is_exact (history : list event) :
  NoDup (html_url <$> repos) →
  ∃ m,
    (search_strings_in_repos (fixed_remote repos count) ignore_patterns
       search_strings history).1 = Returned m
    ∧ ∀ repo s, repo ∈ repos →
        ((∃ found, m !! html_url repo = Some found ∧ s ∈ found)
         ↔ s ∈ search_strings
           ∧ (0 < count (build_query ignore_patterns repo s))%Z).
Proof.
  intros Hnodup.
  erewrite (search_strings_in_repos_run (fixed_remote repos count));
    [|by rewrite get_organization_repos_run].
  cbv zeta. eexists. split; [reflexivity |].
  intros repo s Hrepo. apply list_elem_of_lookup in Hrepo as [k Hk].
  rewrite (repos_loop_lookup _ _ _ _ _ _ _ k (1 + k) repo);
    [| by rewrite enumerate_snd | by apply lookup_enumerate].
  rewrite (found_in_turn_fixed _ _ _ k (1 + k) repo)
    by by apply lookup_enumerate.
  assert (s ∈ hits count ignore_patterns repo search_strings
          ↔ s ∈ search_strings
            ∧ (0 < count (build_query ignore_patterns repo s))%Z) as Hhit.
  { unfold hits. rewrite elem_of_list_to_set, list_elem_of_filter.
    by split; intros []. }
  rewrite <- Hhit. case_decide as Hempty.
  - rewrite lookup_empty, Hempty. split; [by intros (? & ? & ?) | set_solver].
  - split; [by intros (? & [= <-] & ?) | by eexists].
Qed.

End FixedRemote.

(** ** Reporter: keys, bounds and total of the tally *)

Section ReporterMore.
Import Searcher Reporter Totals.

Lemma string_counts_lookup (results : gmap string (gset string)) (s : string) :
  string_counts results !! s
  = if decide (repos_containing results s = 0) then None
    else Some (repos_containing results s).
Proof.
  revert results s. unfold string_counts.
  apply (map_fold_weak_ind
    (λ (counts : gmap string nat) (m : gmap string (gset string)), ∀ s,
       counts !! s = if decide (repos_containing m s = 0) then None
                     else Some (repos_containing m s))).
  - intros s. by rewrite repos_containing_empty, lookup_empty.
  - intros url found m counts Hfresh IH s.
    rewrite tally_set_lookup, (repos_containing_insert _ _ _ _ Hfresh), IH.
    destruct (decide (s ∈ found)); [|done].
    destruct (decide (S (repos_containing m s) = 0)) as [?|_]; [done |].
    destruct (decide (repos_containing m s = 0)) as [->|_]; simpl; [done |].
    by rewrite Nat.add_1_r.
Qed.

Lemma repos_containing_pos (results : gmap string (gset string)) (s : string) :
  repos_containing results s ≠ 0
  ↔ ∃ u found, results !! u = Some found ∧ s ∈ found.
Proof.
  unfold repos_containing. rewrite map_size_ne_0_lookup. split.
  - intros [u [found H]]. apply map_lookup_filter_Some in H as [? ?].
    by exists u, found.
  - intros (u & found & Hu & Hs). exists u, found.
    by apply map_lookup_filter_Some.
Qed.

Lemma repos_containing_le (results : gmap string (gset string)) (s : string) :
  (repos_containing results s ≤ size results)%nat.
Proof. apply map_subseteq_size, map_filter_subseteq. Qed.

(** X14. The tally has an entry exactly for the strings that some set
    of the mapping contains, and each count lies between 1 and the
    number of repositories of the mapping. *)
Theorem string_counts_keys_and_bounds (results : gmap string (gset string)) :
  (∀ s, s ∈ dom (string_counts results)
        ↔ ∃ u found, results !! u = Some found ∧ s ∈ found)
  ∧ (∀ s n, string_counts results !! s = Some n →
       (1 ≤ n ≤ size results)%nat).
Proof.
  split.
  - intros s. rewrite elem_of_dom, string_counts_lookup.
    rewrite <- repos_containing_pos. case_decide as H.
    + split; [by intros [? ?] | done].
    + split; [done | by eexists].
  - intros s n. rewrite string_counts_lookup.
    pose proof (repos_containing_le results s).
    case_decide; [done |]. intros [= <-]. lia.
Qed.

Lemma total_count_insert (counts : gmap string nat) (k : string) (n : nat) :
  counts !! k = None →
  total_count (<[k := n]> counts) = n + total_count counts.
Proof.
  intros Hk. unfold total_count. rewrite map_fold_insert_L; [done | | done].
  intros. lia.
Qed.

Lemma total_count_bump (counts : gmap string nat) (k : string) :
  total_count (<[k := default 0 (counts !! k) + 1]> counts)
  = S (total_count counts).
Proof.
  destruct (counts !! k) as [n|] eqn:Hk; simpl.
  - rewrite <- insert_delete_eq.
    rewrite total_count_insert by apply lookup_delete_eq.
    unfold total_count at 2.
    rewrite (map_fold_delete_L _ _ k n counts); [| intros; lia | done].
    by rewrite Nat.add_1_r.
  - by rewrite total_count_insert.
Qed.

Lemma total_count_set_fold (found : gset string) (counts : gmap string nat) :
  total_count
    (set_fold (λ (str : string) (c : gmap string nat),
                 <[str := default 0 (c !! str) + 1]> c) counts found)
  = size found + total_count counts.
Proof.
  revert found.
  apply (set_fold_ind_L
    (λ (r : gmap string nat) (X : gset string),
       total_count r = size X + total_count counts)).
  - by rewrite size_empty.
  - intros x X r Hx IH. rewrite total_count_bump, IH.
    rewrite size_union by set_solver. by rewrite size_singleton.
Qed.

(** X15. The counts of the tally add up to the number of matches of the
    mapping: every string of every set is counted once, none is lost. *)
Theorem string_counts_total (results : gmap string (gset string)) :
  total_count (string_counts results) = total_matches results.
Proof.
  revert results. unfold string_counts.
  apply (map_fold_weak_ind
    (λ (counts : gmap string nat) (m : gmap string (gset string)),
       total_count counts = total_matches m)).
  - done.
  - intros url found m counts Hfresh IH.
    rewrite total_count_set_fold, IH. unfold total_matches.
    rewrite map_fold_insert_L; [done | | done].
    intros. lia.
Qed.

(** X16. The tally of a mapping the Aggregator returns only has entries
    for search strings the Aggregator was called with. *)
Theorem tally_of_a_run_within_search_strings (github : Remote)
    (ignore_patterns search_strings : list string) (history : list event)
    (m : gmap string (gset string)) (es : list event) :
  search_strings_in_repos github ignore_patterns search_strings history
    = (Returned m, es) →
  ∀ s, s ∈ dom (string_counts m) → s ∈ search_strings.
Proof.
  intros Hrun s. rewrite elem_of_dom, string_counts_lookup.
  case_decide as H; [by intros [? ?] |]. intros _.
  apply repos_containing_pos in H as (u & found & Hu & Hs).
  apply search_strings_in_repos_returned in Hrun as (repos & es0 & _ & ->).
  revert u found s Hu Hs. apply repos_loop_subset.
  intros u found s H. by rewrite lookup_empty in H.
Qed.

End ReporterMore.


(** ** The mapping in insertion order *)

Section OrderedFacts.
Import Searcher Ordered.

Lemma dict_set_keys {V : Type} (k : string) (v : V) (d : dict V) :
  (dict_set k v d).*1 = if decide (k ∈ d.*1) then d.*1 else d.*1 ++ [k].
Proof.
  unfold dict_set. case_decide; [|by rewrite fmap_app].
  rewrite <- list_fmap_compose. apply list_fmap_ext.
  intros j [k' v'] _. simpl. by case_decide.
Qed.

Lemma insert_replaced {V : Type} (k : string) (v : V) (d : dict V) :
  <[k := v]> (list_to_map
     ((λ item : string * V, if decide (item.1 = k) then (k, v) else item)
        <$> d) : gmap string V)
  = <[k := v]> (list_to_map d).
Proof.
  induction d as [|[k0 v0] d IH]; [done |].
  rewrite fmap_cons. cbn [fst]. case_decide as Hk.
  - subst k0. rewrite !list_to_map_cons. cbn [fst snd].
    by rewrite !insert_insert_eq.
  - rewrite !list_to_map_cons. cbn [fst snd].
    rewrite (insert_insert_ne _ k k0) by done. rewrite IH.
    by rewrite insert_insert_ne.
Qed.

(** Assigning in the list of items is inserting in the mapping. *)
Lemma dict_set_to_map {V : Type} (k : string) (v : V) (d : dict V) :
  (list_to_map (dict_set k v d) : gmap string V)
  = <[k := v]> (list_to_map d).
Proof.
  unfold dict_set. case_decide as Hin.
  - induction d as [|[k0 v0] d IH]; [by apply elem_of_nil in Hin |].
    rewrite fmap_cons. cbn [fst]. case_decide as Hk.
    + subst k0. rewrite !list_to_map_cons. cbn [fst snd].
      by rewrite insert_replaced, insert_insert_eq.
    + rewrite !list_to_map_cons. cbn [fst snd].
      rewrite fmap_cons in Hin. cbn [fst] in Hin.
      apply elem_of_cons in Hin as [Hin|Hin]; [done |].
      rewrite (IH Hin). by rewrite insert_insert_ne.
  - induction d as [|[k0 v0] d IH]; [done |].
    rewrite fmap_cons in Hin. cbn [fst] in Hin.
    apply not_elem_of_cons in Hin as [Hne Hin].
    rewrite <- app_comm_cons, !list_to_map_cons. cbn [fst snd].
    rewrite (IH Hin). by rewrite insert_insert_ne.
Qed.

(** Two loops whose bodies keep a relation between their variables and
    emit the same events do so as a whole. *)
Lemma for_each_sim {A S T : Type} (body1 : A → S → Run S)
    (body2 : A → T → Run T) (R : S → T → Prop) :
  (∀ x s t h, R s t →
     R (body1 x s h).1 (body2 x t h).1
     ∧ (body1 x s h).2 = (body2 x t h).2) →
  ∀ items s t h, R s t →
    R (for_each body1 items s h).1 (for_each body2 items t h).1
    ∧ (for_each body1 items s h).2 = (for_each body2 items t h).2.
Proof.
  intros Hbody items. induction items as [|x items IH]; intros s t h HR;
    [done |].
  rewrite !for_each_cons. cbn [fst snd].
  destruct (Hbody x s t h HR) as [HR' Hes]. rewrite Hes.
  destruct (IH _ _ (h ++ (body2 x t h).2) HR') as [HR'' Hes'].
  by rewrite Hes'.
Qed.

Context (github : Remote) (ignore_patterns : list string).
Context (search_strings : list string).

Lemma repo_iteration_items_run (total i : nat) (repo : Repository)
    (results : dict (gset string)) (h : list event) :
  repo_iteration_items github ignore_patterns search_strings total (i, repo)
    results h
  = let r := for_each (string_iteration github ignore_patterns repo)
               search_strings ∅
               (h ++ [Print (LogSearchingRepo i total (name repo))]) in
    (if decide (r.1 = ∅) then results
     else dict_set (html_url repo) r.1 results,
     Print (LogSearchingRepo i total (name repo)) :: r.2
       ++ [Print (LogCompleted (name repo) (size r.1)); Print LogSeparator]).
Proof.
  unfold repo_iteration_items. rewrite bind_run. simpl. rewrite bind_run.
  simpl. by destruct (for_each _ _ _ _).
Qed.

Lemma dict_set_NoDup {V : Type} (k : string) (v : V) (d : dict V) :
  NoDup d.*1 → NoDup (dict_set k v d).*1.
Proof.
  intros Hd. rewrite dict_set_keys. case_decide as Hin; [done |].
  apply NoDup_app. split; [done |]. split; [|apply NoDup_singleton].
  intros x Hx Hk. apply list_elem_of_singleton in Hk as ->. done.
Qed.

Lemma repos_loop_items_sim (total : nat) (items : list (nat * Repository))
    (results : dict (gset string)) (h : list event) :
  NoDup results.*1 →
  let r :=
    for_each (repo_iteration_items github ignore_patterns search_strings total)
      items results h in
  let r' :=
    for_each (repo_iteration github ignore_patterns search_strings total)
      items (list_to_map results) h in
  (list_to_map r.1 = r'.1 ∧ NoDup r.1.*1) ∧ r.2 = r'.2.
Proof.
  intros Hnodup.
  apply (for_each_sim _ _
    (λ (d : dict (gset string)) (m : gmap string (gset string)),
       list_to_map d = m ∧ NoDup d.*1)); [|done].
  intros [i repo] d m h' [<- Hd].
  rewrite repo_iteration_items_run, repo_iteration_run. cbn [fst snd].
  cbv zeta. split; [|done]. case_decide; [done |].
  split; [apply dict_set_to_map | by apply dict_set_NoDup].
Qed.

Lemma search_strings_in_repos_items_run (h : list event)
    (repos : list Repository) (es0 : list event) :
  get_organization_repos github h = (Returned repos, es0) →
  search_strings_in_repos_items github ignore_patterns search_strings h
  = let loop :=
      for_each (repo_iteration_items github ignore_patterns search_strings
                  (length repos))
        (enumerate 1 repos) [] (h ++ es0) in
    (Returned loop.1, es0 ++ loop.2).
Proof.
  intros Henum. unfold search_strings_in_repos_items.
  rewrite bind_run, Henum. simpl. destruct repos as [|repo repos]; [done |].
  rewrite bind_run. simpl. by rewrite app_nil_r.
Qed.

(** The ordered run and the run of the claims, side by side. *)
Lemma ordered_run_sim (history : list event) :
  let r :=
    search_strings_in_repos_items github ignore_patterns search_strings
      history in
  let r' :=
    search_strings_in_repos github ignore_patterns search_strings history in
  r.2 = r'.2
  ∧ ((∃ items, r.1 = Returned items ∧ r'.1 = Returned (list_to_map items)
               ∧ NoDup items.*1)
     ∨ (∃ e, r.1 = Raised e ∧ r'.1 = Raised e)).
Proof.
  intros r r'. subst r r'.
  destruct (get_organization_repos github history) as [[repos|e] es0]
    eqn:Henum.
  - rewrite (search_strings_in_repos_items_run _ _ _ Henum).
    rewrite (search_strings_in_repos_run _ _ _ _ _ _ Henum). cbv zeta.
    cbn [fst snd].
    destruct (repos_loop_items_sim (length repos) (enumerate 1 repos) []
                (history ++ es0)) as [[Hmap Hnodup] Hes];
      [apply NoDup_nil_2 |].
    split; [by rewrite Hes |]. left. eexists. split; [done |].
    by rewrite Hmap.
  - unfold search_strings_in_repos_items, search_strings_in_repos.
    rewrite !bind_run, Henum. simpl. split; [done |]. right. by exists e.
Qed.

Lemma repos_loop_items_keys (total : nat) (items : list (nat * Repository))
    (results : dict (gset string)) (h : list event) :
  NoDup (results.*1 ++ (html_url <$> items.*2)) →
  ∃ keys,
    (for_each (repo_iteration_items github ignore_patterns search_strings
                 total) items results h).1.*1 = results.*1 ++ keys
    ∧ keys `sublist_of` (html_url <$> items.*2).
Proof.
  revert results h.
  induction items as [|[i repo] items IH]; intros results h Hnodup.
  { exists []. by rewrite app_nil_r. }
  rewrite for_each_cons, repo_iteration_items_run. cbn [fst snd]. cbv zeta.
  rewrite !fmap_cons in *. cbn [snd] in *.
  set (F := (for_each (string_iteration github ignore_patterns repo)
               search_strings ∅ _).1).
  assert (html_url repo ∉ results.*1) as Hfresh.
  { apply NoDup_app in Hnodup as (_ & Hdisj & _). intros Hin.
    apply (Hdisj _ Hin). by left. }
  destruct (decide (F = ∅)) as [HF|HF].
  - destruct (IH results (h ++ Print (LogSearchingRepo i total (name repo))
       :: (for_each (string_iteration github ignore_patterns repo)
             search_strings ∅
             (h ++ [Print (LogSearchingRepo i total (name repo))])).2
          ++ [Print (LogCompleted (name repo) (size F)); Print LogSeparator]))
      as (keys & Hkeys & Hsub).
    { rewrite <- Permutation_middle in Hnodup.
      by apply NoDup_cons in Hnodup as [_ ?]. }
    exists keys. split; [done |]. by apply sublist_cons.
  - destruct (IH (dict_set (html_url repo) F results)
       (h ++ Print (LogSearchingRepo i total (name repo))
       :: (for_each (string_iteration github ignore_patterns repo)
             search_strings ∅
             (h ++ [Print (LogSearchingRepo i total (name repo))])).2
          ++ [Print (LogCompleted (name repo) (size F)); Print LogSeparator]))
      as (keys & Hkeys & Hsub).
    { rewrite dict_set_keys, decide_False by done.
      by rewrite <- app_assoc. }
    exists (html_url repo :: keys). split; [|by apply sublist_skip].
    rewrite Hkeys, dict_set_keys, decide_False by done.
    by rewrite <- app_assoc.
Qed.

(** X18. With distinct URLs, the keys of the returned mapping stand in
    listing order and none is repeated: they are the URLs of the
    listing with some left out. *)
Theorem result_keys_in_listing_order (history : list event)
    (repos : list Repository) (es0 : list event) :
  get_organization_repos github history = (Returned repos, es0) →
  NoDup (html_url <$> repos) →
  ∃ items es,
    search_strings_in_repos_items github ignore_patterns search_strings
      history = (Returned items, es)
    ∧ items.*1 `sublist_of` (html_url <$> repos)
    ∧ NoDup items.*1.
Proof.
  intros Henum Hnodup.
  rewrite (search_strings_in_repos_items_run _ _ _ Henum). cbv zeta.
  eexists _, _. split; [done |].
  destruct (repos_loop_items_keys (length repos) (enumerate 1 repos) []
              (history ++ es0)) as (keys & Hkeys & Hsub).
  { by rewrite enumerate_snd. }
  rewrite enumerate_snd in Hsub. simpl in Hkeys. rewrite Hkeys.
  split; [done |]. by eapply sublist_NoDup.
Qed.

End OrderedFacts.

(** ** Reporter: what [display_results] shows *)

Section DisplayFacts.
Import Ordered Display.

Lemma sorted_spec (found : gset string) :
  StronglySorted String.le (sorted found)
  ∧ NoDup (sorted found)
  ∧ ∀ s, s ∈ sorted found ↔ s ∈ found.
Proof.
  unfold sorted. split; [apply StronglySorted_merge_sort; apply _ |].
  split.
  - rewrite merge_sort_Permutation. apply NoDup_elements.
  - intros s. rewrite merge_sort_Permutation. apply elem_of_elements.
Qed.

Lemma shown_of_entries (results : dict (gset string)) :
  let entries :=
    results ≫= λ '(repo_url, found_strings),
      [RepositoryLine repo_url; FoundStringsLine (sorted found_strings)] in
  shown_urls entries = results.*1
  ∧ shown_strings entries = sorted <$> results.*2
  ∧ shown_totals entries = [].
Proof.
  induction results as [|[u f] results (IH1 & IH2 & IH3)]; [done |].
  cbv zeta in *. rewrite bind_cons.
  unfold shown_urls, shown_strings, shown_totals in *.
  rewrite !omap_app, IH1, IH2, IH3. done.
Qed.

Lemma display_results_shown (results : dict (gset string)) :
  shown_urls (display_results results) = results.*1
  ∧ shown_totals (display_results results)
    = (if decide (results = []) then [] else [length results])
  ∧ (results = [] → display_results results = [NoRepositoriesFound]).
Proof.
  destruct results as [|item results]; [done |].
  destruct (shown_of_entries (item :: results)) as (H1 & _ & H3).
  rewrite decide_False by done.
  unfold display_results, shown_urls, shown_totals in *.
  rewrite !omap_app, H1, H3. simpl. by rewrite app_nil_r.
Qed.

Lemma entries_length (results : dict (gset string)) :
  length (results ≫= λ '(repo_url, found_strings),
            [RepositoryLine repo_url; FoundStringsLine (sorted found_strings)])
  = 2 * length results.
Proof.
  induction results as [|[u f] results IH]; [done |].
  rewrite bind_cons, length_app, IH. simpl. lia.
Qed.

(** The two lines of the [i]-th item stand at the places [2 * i] and
    [2 * i + 1] of the lines of the items. *)
Lemma entries_lookup (results : dict (gset string)) (i : nat) (u : string)
    (f : gset string) :
  results !! i = Some (u, f) →
  let entries :=
    results ≫= λ '(repo_url, found_strings),
      [RepositoryLine repo_url; FoundStringsLine (sorted found_strings)] in
  entries !! (2 * i) = Some (RepositoryLine u)
  ∧ entries !! (1 + 2 * i) = Some (FoundStringsLine (sorted f)).
Proof.
  revert i. induction results as [|[u0 f0] results IH]; intros i Hi;
    [by destruct i |].
  cbv zeta. rewrite bind_cons. destruct i as [|i].
  - injection Hi as -> ->. done.
  - change (((u0, f0) :: results) !! S i) with (results !! i) in Hi.
    destruct (IH i Hi) as [H1 H2].
    replace (2 * S i) with (S (S (2 * i))) by lia.
    replace (1 + S (S (2 * i))) with (S (S (1 + 2 * i))) by lia.
    done.
Qed.

(** X19. For the empty mapping, and for it only, the report is the
    single line [No repositories found...]. Otherwise the report is its
    three lines of heading, then for every item of the mapping, in the
    order of the mapping, the line of its URL followed by the line of
    its strings, then as last line the number of items, and no other
    line. The strings of an item are shown in ascending order, each
    once. *)
Theorem display_results_shows_the_mapping (results : dict (gset string)) :
  (display_results results = [NoRepositoriesFound] ↔ results = [])
  ∧ (results ≠ [] →
     let lines := display_results results in
     length lines = 4 + 2 * length results
     ∧ take 3 lines = [RuleAfterBlank; Title; Rule]
     ∧ (∀ i u f, results !! i = Some (u, f) →
          lines !! (3 + 2 * i) = Some (RepositoryLine u)
          ∧ lines !! (4 + 2 * i) = Some (FoundStringsLine (sorted f)))
     ∧ last lines = Some (TotalLine (length results)))
  ∧ shown_urls (display_results results) = results.*1
  ∧ shown_strings (display_results results) = sorted <$> results.*2
  ∧ shown_totals (display_results results)
    = (if decide (results = []) then [] else [length results])
  ∧ ∀ found, StronglySorted String.le (sorted found)
             ∧ NoDup (sorted found)
             ∧ ∀ s, s ∈ sorted found ↔ s ∈ found.
Proof.
  split; [by destruct results |].
  split.
  { intros Hne lines. subst lines.
    destruct results as [|item results]; [done |].
    unfold display_results.
    set (entries := (item :: results) ≫= _).
    split; [|split; [|split]].
    - rewrite !length_app. unfold entries. rewrite entries_length.
      simpl. lia.
    - done.
    - intros i u f Hi.
      destruct (entries_lookup _ _ _ _ Hi) as [H1 H2]. fold entries in H1, H2.
      change (([RuleAfterBlank; Title; Rule]
               ++ entries ++ [TotalLine (length (item :: results))])
              !! (3 + 2 * i))
        with ((entries ++ [TotalLine (length (item :: results))])
              !! (2 * i)).
      change (([RuleAfterBlank; Title; Rule]
               ++ entries ++ [TotalLine (length (item :: results))])
              !! (4 + 2 * i))
        with ((entries ++ [TotalLine (length (item :: results))])
              !! (1 + 2 * i)).
      split; by apply lookup_app_l_Some.
    - rewrite app_assoc. apply last_snoc. }
  split; [|split; [|split]]; [| | |apply sorted_spec].
  - destruct results as [|item results]; [done |].
    destruct (shown_of_entries (item :: results)) as (H & _ & _).
    unfold display_results, shown_urls in *. rewrite !omap_app, H. simpl.
    by rewrite ?app_nil_r.
  - destruct results as [|item results]; [done |].
    destruct (shown_of_entries (item :: results)) as (_ & H & _).
    unfold display_results, shown_strings in *. rewrite !omap_app, H. simpl.
    by rewrite ?app_nil_r.
  - destruct results as [|item results]; [done |].
    destruct (shown_of_entries (item :: results)) as (_ & _ & H).
    rewrite decide_False by done.
    unfold display_results, shown_totals in *. rewrite !omap_app, H. simpl.
    by rewrite ?app_nil_r.
Qed.

End DisplayFacts.

(** ** The command line *)

Section MainFacts.
Import PyStr Searcher Ordered Display Main.
Context (connect : string → Remote).
Context (search_strings ignore_patterns : list string).

Lemma search_events_app (out1 out2 : list output) :
  search_events (out1 ++ out2) = search_events out1 ++ search_events out2.
Proof. apply omap_app. Qed.

Lemma report_lines_app (out1 out2 : list output) :
  report_lines (out1 ++ out2) = report_lines out1 ++ report_lines out2.
Proof. apply omap_app. Qed.

Lemma search_events_searching (es : list event) :
  search_events (Searching <$> es) = es
  ∧ report_lines (Searching <$> es) = [].
Proof.
  induction es as [|e es [IH1 IH2]]; [done |]. rewrite fmap_cons.
  change (search_events (Searching e :: (Searching <$> es)))
    with (e :: search_events (Searching <$> es)).
  change (report_lines (Searching e :: (Searching <$> es)))
    with (report_lines (Searching <$> es)).
  by rewrite IH1, IH2.
Qed.

Lemma report_lines_report (lines : list report_line) :
  report_lines (Report <$> lines) = lines
  ∧ search_events (Report <$> lines) = [].
Proof.
  induction lines as [|l lines [IH1 IH2]]; [done |]. rewrite fmap_cons.
  change (report_lines (Report l :: (Report <$> lines)))
    with (l :: report_lines (Report <$> lines)).
  change (search_events (Report l :: (Report <$> lines)))
    with (search_events (Report <$> lines)).
  by rewrite IH1, IH2.
Qed.

(** The run of [main] once a token is chosen. *)
Lemma main_with_token (args_token env_token : option string) (token : string) :
  py_or args_token env_token = Some token →
  is_empty token = false →
  let r :=
    search_strings_in_repos_items (connect token) ignore_patterns
      search_strings [] in
  let out := (main connect args_token env_token search_strings
                ignore_patterns).1 in
  search_events out = r.2
  ∧ match r.1 with
    | Returned results =>
        report_lines out = display_results results
        ∧ (main connect args_token env_token search_strings
             ignore_patterns).2 = 0
    | Raised e =>
        report_lines out = []
        ∧ (main connect args_token env_token search_strings
             ignore_patterns).2 = 1
    end.
Proof.
  intros Htoken Hne. cbv zeta. unfold main. rewrite Htoken, Hne.
  destruct (search_strings_in_repos_items _ _ _ _) as [[results|e] es].
  - cbn [fst snd].
    rewrite !search_events_app, !report_lines_app.
    destruct (search_events_searching es) as [-> ->].
    destruct (report_lines_report (display_results results)) as [-> ->].
    destruct ignore_patterns; simpl; by rewrite app_nil_r.
  - cbn [fst snd].
    rewrite !search_events_app, !report_lines_app.
    destruct (search_events_searching es) as [-> ->].
    destruct ignore_patterns; simpl; by rewrite app_nil_r.
Qed.

(** X20. Without a token, neither on the command line nor in the
    environment (missing or empty), the program prints its two lines of
    help and exits with status 1 before anything is asked of the
    remote. *)
Theorem main_without_token (args_token env_token : option string) :
  truthy args_token = false → truthy env_token = false →
  let r := main connect args_token env_token search_strings ignore_patterns in
  r = ([Say TokenRequired; Say TokenHelp], 1) ∧ search_events r.1 = [].
Proof.
  intros Ha He. cbv zeta. unfold main, py_or. rewrite Ha.
  destruct env_token as [t|]; [|done]. simpl in He.
  apply negb_false_iff in He. by rewrite He.
Qed.

(** X21. A token given on the command line wins: the environment is
    not looked at. *)
Theorem main_prefers_the_command_line (args_token env_token env_token'
    : option string) :
  truthy args_token = true →
  main connect args_token env_token search_strings ignore_patterns
  = main connect args_token env_token' search_strings ignore_patterns.
Proof. intros Ha. unfold main, py_or. by rewrite Ha. Qed.

(** X22. With a token, the exit status is 0 unless the listing of the
    organization raises an exception that is no [GithubException], and
    then it is 1: whatever the searches answer, rate limits and errors
    included, the status stays 0. *)
Theorem main_exit_status (args_token env_token : option string)
    (token : string) :
  py_or args_token env_token = Some token →
  is_empty token = false →
  let status :=
    (main connect args_token env_token search_strings ignore_patterns).2 in
  match get_repos (connect token) [] org_name with
  | ReposException _ => status = 1
  | _ => status = 0
  end.
Proof.
  intros Htoken Hne status. subst status.
  destruct (main_with_token _ _ _ Htoken Hne) as [_ Hmain].
  unfold search_strings_in_repos_items in Hmain.
  rewrite bind_run, get_organization_repos_run in Hmain.
  destruct (get_repos (connect token) [] org_name) as [repos|e|e];
    cbn [fst snd] in Hmain.
  - destruct repos; [by destruct Hmain |].
    rewrite bind_run in Hmain. by destruct Hmain.
  - by destruct Hmain.
  - by destruct Hmain.
Qed.

(** X23. When the search returns the mapping [m], the program exits
    with status 0, its search events are those of the search, the URLs
    of its report are the keys of [m], and the total it prints is the
    number of keys of [m]; for the empty mapping the report is the line
    [No repositories found...]. *)
Theorem main_reports_the_mapping (args_token env_token : option string)
    (token : string) (m : gmap string (gset string)) (es : list event) :
  py_or args_token env_token = Some token →
  is_empty token = false →
  search_strings_in_repos (connect token) ignore_patterns search_strings []
    = (Returned m, es) →
  let r := main connect args_token env_token search_strings ignore_patterns in
  r.2 = 0
  ∧ search_events r.1 = es
  ∧ list_to_set (shown_urls (report_lines r.1)) = dom m
  ∧ shown_totals (report_lines r.1)
    = (if decide (m = ∅) then [] else [size m])
  ∧ (m = ∅ → report_lines r.1 = [NoRepositoriesFound]).
Proof.
  intros Htoken Hne Hrun r. subst r.
  destruct (main_with_token _ _ _ Htoken Hne) as [Hes Hmain].
  destruct (ordered_run_sim (connect token) ignore_patterns search_strings [])
    as [Hsame Hcase].
  rewrite Hrun in Hsame, Hcase. cbn [fst snd] in *.
  destruct Hcase as [(items & Hitems & [= ->] & Hnodup)|(e & _ & [=])].
  rewrite Hitems in Hmain. destruct Hmain as [Hlines Hstatus].
  rewrite Hlines.
  destruct (display_results_shown items) as (Hurls & Htotals & Hnone).
  rewrite Hurls, Htotals.
  split; [done |]. split; [by rewrite Hes |].
  split; [by rewrite dom_list_to_map_L |].
  assert (items = [] ↔ (list_to_map items : gmap string (gset string)) = ∅)
    as Hempty.
  { split; [by intros -> |]. intros H.
    destruct items as [|[k v] items]; [done |].
    rewrite list_to_map_cons in H. by apply insert_non_empty in H. }
  split.
  - rewrite map_size_list_to_map by done.
    destruct (decide (items = [])) as [->|Hne']; [done |].
    rewrite decide_False; [done |]. by rewrite <- Hempty.
  - intros H. apply Hnone. by apply Hempty.
Qed.

End MainFacts.

(** ** The summary of the example *)

Section SummaryFacts.
Import Reporter Summary.

Lemma item_le_total : Total item_le.
Proof.
  intros [s1 n1] [s2 n2]. unfold item_le. simpl.
  destruct (decide (s1 = s2)) as [->|Hne].
  - destruct (Nat.le_ge_cases n1 n2); [left | right]; by right.
  - destruct (total String.le s1 s2); [left | right]; by left.
Qed.

Lemma item_le_trans : Transitive item_le.
Proof.
  intros [s1 n1] [s2 n2] [s3 n3]. unfold item_le. simpl.
  intros [[Hne1 H1]|[-> H1]] [[Hne2 H2]|[-> H2]].
  - left. split; [|by etrans]. intros ->.
    apply Hne2. by apply (anti_symm String.le).
  - by left.
  - by left.
  - right. split; [done |]. lia.
Qed.

Lemma counted_count_lines (items : list (string * nat)) :
  counted ((λ item : string * nat, CountLine item.1 item.2) <$> items)
  = items.
Proof.
  unfold counted. induction items as [|[s n] items IH]; [done |].
  cbn. by f_equal.
Qed.

Lemma sorted_items_strict (items : list (string * nat)) :
  StronglySorted item_le items → NoDup items.*1 →
  StronglySorted (λ a b, String.le a.1 b.1 ∧ a.1 ≠ b.1) items.
Proof.
  induction 1 as [|a items Hsorted IH Hall]; intros Hnodup;
    [constructor |].
  rewrite fmap_cons in Hnodup. apply NoDup_cons in Hnodup as [Hfresh Hnodup].
  constructor; [by apply IH |].
  apply Forall_forall. intros b Hb.
  assert (a.1 ≠ b.1) as Hne.
  { intros Heq. apply Hfresh. rewrite Heq. by apply list_elem_of_fmap_2. }
  rewrite Forall_forall in Hall. destruct (Hall b Hb) as [[_ ?]|[? _]]; done.
Qed.

(** X24. The summary is empty for the empty mapping; otherwise it
    lists, after its heading, every string that some set of the mapping
    contains once, with the number of repositories whose set contains
    it, the strings in strictly ascending order. *)
Theorem summary_lists_the_tally (results : gmap string (gset string)) :
  (summary results = [] ↔ results = ∅)
  ∧ (∀ s n, (s, n) ∈ counted (summary results)
            ↔ n ≠ 0 ∧ n = repos_containing results s)
  ∧ StronglySorted (λ a b, String.le a.1 b.1 ∧ a.1 ≠ b.1)
      (counted (summary results)).
Proof.
  unfold summary. destruct (decide (results = ∅)) as [->|Hne].
  - split; [done |]. split; [|constructor].
    intros s n. rewrite repos_containing_empty.
    split; [by intros ?%elem_of_nil | by intros [? ->]].
  - split; [by split |].
    assert (counted ([SummaryRuleAfterBlank; SummaryTitle; SummaryRule]
              ++ ((λ item : string * nat, CountLine item.1 item.2)
                    <$> merge_sort item_le
                          (map_to_list (string_counts results))))
            = merge_sort item_le (map_to_list (string_counts results)))
      as ->.
    { unfold counted. rewrite omap_app. apply counted_count_lines. }
    split.
    + intros s n. rewrite merge_sort_Permutation, elem_of_map_to_list.
      rewrite string_counts_lookup. case_decide as H.
      * split; [done |]. intros [H0 ->]. done.
      * split; [by intros [= <-] | by intros [_ ->]].
    + apply sorted_items_strict.
      * apply StronglySorted_merge_sort;
          [apply item_le_trans | apply item_le_total].
      * rewrite merge_sort_Permutation. apply NoDup_fst_map_to_list.
Qed.

End SummaryFacts.

(** ** The further properties on concrete runs *)

Section MoreWitnesses.
Import Searcher Scenario MoreScenarios Observe Reporter Ordered Display Main.

Lemma no_repositories_no_search_witness :
  let r := search_strings_in_repos forbidden_remote ["md"] ["x"; "y"] [] in
  r.1 = Returned ∅ ∧ searches r.2 = [] ∧ sleeps r.2 = [].
Proof.
  apply (no_repositories_no_search forbidden_remote ["md"] ["x"; "y"] []).
  right. exists "404 Not Found". reflexivity.
Defined.

Lemma listing_exception_propagates_witness :
  search_strings_in_repos unreachable_remote ["md"] ["x"; "y"] []
  = (Raised "connection refused", [GetRepos org_name]).
Proof.
  apply (listing_exception_propagates unreachable_remote ["md"] ["x"; "y"] []
           "connection refused").
  reflexivity.
Defined.

Lemma queries_of_a_run_witness :
  searches (search_strings_in_repos limited_remote ["md"] ["x"; "y"] []).2
  = [alpha; beta] ≫= λ repo, build_query ["md"] repo <$> ["x"; "y"].
Proof.
  apply (queries_of_a_run limited_remote ["md"] ["x"; "y"] [] [alpha; beta]
           [GetRepos org_name; Print (LogFoundRepos 2 org_name)]).
  reflexivity.
Defined.

Lemma sleeping_budget_of_a_run_witness :
  within_budget
    (search_strings_in_repos limited_remote ["md"] ["x"; "y"; "z"] []).2
    (length [alpha; beta] * length ["x"; "y"; "z"]).
Proof.
  apply (sleeping_budget_of_a_run limited_remote ["md"] ["x"; "y"; "z"] []
           [alpha; beta]
           [GetRepos org_name; Print (LogFoundRepos 2 org_name)]).
  reflexivity.
Defined.

Lemma result_value_is_found_strings_witness :
  ∃ m es,
    search_strings_in_repos limited_remote ["md"] ["x"; "y"; "z"] []
      = (Returned m, es)
    ∧ m !! html_url alpha = Some {["x"; "y"]}.
Proof.
  destruct (result_value_is_found_strings limited_remote ["md"]
              ["x"; "y"; "z"] [] [alpha; beta]
              [GetRepos org_name; Print (LogFoundRepos 2 org_name)]
              0 alpha eq_refl)
    as (m & es & Hrun & Hvalue).
  - apply (bool_decide_unpack _). vm_compute. exact I.
  - reflexivity.
  - exists m, es. split; [exact Hrun |]. rewrite Hvalue.
    vm_compute. reflexivity.
Defined.

Lemma fixed_remote_mapping_is_exact_witness :
  ∃ m,
    (search_strings_in_repos (fixed_remote [alpha; beta] sample_count)
       ["md"] ["x"; "y"] []).1 = Returned m
    ∧ ((∃ found, m !! html_url beta = Some found ∧ "y" ∈ found)
       ↔ "y" ∈ ["x"; "y"]
         ∧ (0 < sample_count (build_query ["md"] beta "y"))%Z).
Proof.
  destruct (fixed_remote_mapping_is_exact [alpha; beta] sample_count
              ["md"] ["x"; "y"] []) as (m & Hrun & Hexact).
  - apply (bool_decide_unpack _). vm_compute. exact I.
  - exists m. split; [exact Hrun |]. apply Hexact.
    apply list_elem_of_further, list_elem_of_here.
Defined.

Lemma tally_of_a_run_within_search_strings_witness :
  "y" ∈ ["x"; "y"; "z"].
Proof.
  assert (search_strings_in_repos limited_remote ["md"] ["x"; "y"; "z"] []
          = (Returned (<[html_url alpha := {["x"; "y"]}]> ∅),
             (search_strings_in_repos limited_remote ["md"] ["x"; "y"; "z"]
                []).2)) as Hrun.
  { vm_compute. reflexivity. }
  apply (tally_of_a_run_within_search_strings _ _ _ _ _ _ Hrun "y").
  apply (bool_decide_unpack _). vm_compute. exact I.
Defined.

Lemma result_keys_in_listing_order_witness :
  ∃ items es,
    search_strings_in_repos_items limited_remote ["md"] ["x"; "y"; "z"] []
      = (Returned items, es)
    ∧ items.*1 `sublist_of` (html_url <$> [alpha; beta])
    ∧ NoDup items.*1.
Proof.
  apply (result_keys_in_listing_order limited_remote ["md"] ["x"; "y"; "z"]
           [] [alpha; beta]
           [GetRepos org_name; Print (LogFoundRepos 2 org_name)]).
  - reflexivity.
  - apply (bool_decide_unpack _). vm_compute. exact I.
Defined.

Lemma main_without_token_witness :
  let r := main (λ _, limited_remote) None (Some EmptyString) ["x"] ["md"] in
  r = ([Say TokenRequired; Say TokenHelp], 1) ∧ search_events r.1 = [].
Proof.
  apply (main_without_token (λ _, limited_remote) ["x"] ["md"] None
           (Some EmptyString)); reflexivity.
Defined.

Lemma main_prefers_the_command_line_witness :
  main (λ _, limited_remote) (Some "cli") (Some "env") ["x"] ["md"]
  = main (λ _, limited_remote) (Some "cli") None ["x"] ["md"].
Proof.
  apply (main_prefers_the_command_line (λ _, limited_remote) ["x"] ["md"]
           (Some "cli") (Some "env") None).
  reflexivity.
Defined.

Lemma main_exit_status_witness :
  (main (λ _, unreachable_remote) None (Some "tok") ["x"] ["md"]).2 = 1.
Proof.
  apply (main_exit_status (λ _, unreachable_remote) ["x"] ["md"] None
           (Some "tok") "tok"); reflexivity.
Defined.

Lemma main_reports_the_mapping_witness :
  let r := main (λ _, limited_remote) (Some "tok") None ["x"; "y"; "z"]
             ["md"] in
  r.2 = 0
  ∧ shown_urls (report_lines r.1) = [html_url alpha]
  ∧ shown_totals (report_lines r.1) = [1].
Proof.
  assert (search_strings_in_repos limited_remote ["md"] ["x"; "y"; "z"] []
          = (Returned (<[html_url alpha := {["x"; "y"]}]> ∅),
             (search_strings_in_repos limited_remote ["md"] ["x"; "y"; "z"]
                []).2)) as Hrun.
  { vm_compute. reflexivity. }
  destruct (main_reports_the_mapping (λ _, limited_remote) ["x"; "y"; "z"]
              ["md"] (Some "tok") None "tok" _ _ eq_refl eq_refl Hrun)
    as (Hstatus & _ & _ & _ & _).
  split; [exact Hstatus |]. split; vm_compute; reflexivity.
Defined.

End MoreWitnesses.
